(** * scripts/audit_config.py: configuration-documentation audit

    A shallow embedding of the audit script and the properties of its
    scanner ([find_config_definitions]), its documentation loader
    ([get_documented_sections]) and its reporter ([main]).

    Python text is a sequence of Unicode code points: a [str] is a list of
    code points, each an [N].  The interpreter's Unicode tables behind the
    regex classes [\s] and [\w] are not part of the repository; they are
    taken as a parameter ([unicode_db]) outside the ASCII range and written
    out inside it.  Paths are joined the POSIX way.

    A run is a function of a [world]: the directory tree [os.walk] lists,
    the files of the working directory that are opened by name, and the
    standard output.  Opening and reading a source file or the
    documentation file may raise; opening the report for writing and
    writing to it are taken to succeed. *)

From Stdlib Require Import String Ascii.
From Stdlib Require Import List NArith Arith Bool Lia.
Import ListNotations.

Set Implicit Arguments.
Set Warnings "-register-all".

(** ** Text *)

Definition str := list N.

(** The code points of a literal of the source. *)
Definition lit (s : string) : str := map N_of_ascii (list_ascii_of_string s).

(** The newline character, code point 10. *)
Definition NL : str := [10%N].

(** The double quote, code point 34. *)
Definition QUOTE : str := [34%N].

Definition str_eqb (a b : str) : bool :=
  if list_eq_dec N.eq_dec a b then true else false.

(** [s.startswith(p)], returning what follows the prefix. *)
Fixpoint strip_prefix (p s : str) : option str :=
  match p, s with
  | [], _ => Some s
  | _ :: _, [] => None
  | a :: p', b :: s' => if N.eqb a b then strip_prefix p' s' else None
  end.

Definition startswith (s p : str) : bool :=
  match strip_prefix p s with Some _ => true | None => false end.

(** [s.endswith(p)]. *)
Definition endswith (s p : str) : bool := startswith (rev s) (rev p).

(** [needle in hay] on two strings: substring containment. *)
Fixpoint str_in (needle hay : str) : bool :=
  startswith hay needle ||
  match hay with
  | [] => false
  | _ :: hay' => str_in needle hay'
  end.

(** What "substring" means. *)
Definition Substring (needle hay : str) : Prop :=
  exists pre post, hay = pre ++ needle ++ post.

(** ** Character classes of [re] on [str] patterns *)

(** The part of the interpreter's Unicode database the two patterns consult
    beyond ASCII: [str.isspace] and [str.isalnum] of one code point. *)
Record unicode_db : Type := {
  uni_space : N -> bool;
  uni_alnum : N -> bool
}.

Definition between (lo hi c : N) : bool := N.leb lo c && N.leb c hi.

Definition ascii_space (c : N) : bool :=
  between 9 13 c || between 28 31 c || N.eqb c 32.

Definition ascii_alnum (c : N) : bool :=
  between 48 57 c || between 65 90 c || between 97 122 c.

(** The database every example below runs with: nothing beyond ASCII is a
    space or a letter.  The examples only use ASCII text. *)
Definition ascii_db : unicode_db :=
  {| uni_space := fun _ => false; uni_alnum := fun _ => false |}.

Section Regex.

Variable db : unicode_db.

(** [\s] *)
Definition is_space (c : N) : bool :=
  if N.ltb c 128 then ascii_space c else uni_space db c.

(** [\w] *)
Definition is_word (c : N) : bool :=
  if N.ltb c 128 then ascii_alnum c || N.eqb c 95 else uni_alnum db c.

(** The class of every character but the double quote (code point 34). *)
Definition not_quote (c : N) : bool := negb (N.eqb c 34).

(** The fragment of regular expressions the two patterns are written in.
    Repetition is only ever applied to a character class. *)
Inductive regex : Type :=
| Lit (l : str)              (* literal text *)
| Plus (c : N -> bool)       (* c+, greedy *)
| Star (c : N -> bool)       (* c*, greedy *)
| Opt (r : regex)            (* (?:r)?, greedy *)
| Seq (r1 r2 : regex).

(** A compiled pattern with one capturing group: what stands before the
    group, the group, and what stands after it. *)
Record pattern : Type := {
  before : regex;
  group1 : regex;
  after : regex
}.

(** Greedy repetition of a class with backtracking: take one more
    character first, give it back when the rest fails. *)
Fixpoint rep {R} (c : N -> bool) (s : str) (k : str -> option R) : option R :=
  match s with
  | a :: s' =>
      if c a then
        match rep c s' k with
        | Some x => Some x
        | None => k s
        end
      else k s
  | [] => k s
  end.

(** The backtracking matcher, in continuation-passing style: [k] is the
    rest of the pattern, tried on the rest of the text. *)
Fixpoint rmatch {R} (r : regex) (s : str) (k : str -> option R) : option R :=
  match r with
  | Lit l =>
      match strip_prefix l s with
      | Some s' => k s'
      | None => None
      end
  | Plus c =>
      match s with
      | a :: s' => if c a then rep c s' k else None
      | [] => None
      end
  | Star c => rep c s k
  | Opt r' =>
      match rmatch r' s k with
      | Some x => Some x
      | None => k s
      end
  | Seq r1 r2 => rmatch r1 s (fun s' => rmatch r2 s' k)
  end.

(** A match of the pattern starting at the head of [s]; the result is
    [m.group(1)]. *)
Definition match_here (p : pattern) (s : str) : option str :=
  rmatch (before p) s (fun s1 =>
    rmatch (group1 p) s1 (fun s2 =>
      rmatch (after p) s2 (fun _ =>
        Some (firstn (length s1 - length s2) s1)))).

(** [p.search(s)]: the match at the leftmost position that has one. *)
Fixpoint re_search (p : pattern) (s : str) : option str :=
  match match_here p s with
  | Some g => Some g
  | None =>
      match s with
      | [] => None
      | _ :: s' => re_search p s'
      end
  end.

(** [public\s+(?:sealed\s+)?class\s+(\w+Options)] *)
Definition CLASS_PATTERN : pattern :=
  {| before :=
       Seq (Lit (lit "public")) (Seq (Plus is_space)
         (Seq (Opt (Seq (Lit (lit "sealed")) (Plus is_space)))
           (Seq (Lit (lit "class")) (Plus is_space))));
     group1 := Seq (Plus is_word) (Lit (lit "Options"));
     after := Lit [] |}.

(** [public\s+const\s+string\s+SectionName\s*=\s*Q([^Q]+)Q], where [Q]
    stands for the double quote. *)
Definition SECTION_PATTERN : pattern :=
  {| before :=
       Seq (Lit (lit "public")) (Seq (Plus is_space)
         (Seq (Lit (lit "const")) (Seq (Plus is_space)
           (Seq (Lit (lit "string")) (Seq (Plus is_space)
             (Seq (Lit (lit "SectionName")) (Seq (Star is_space)
               (Seq (Lit (lit "=")) (Seq (Star is_space)
                 (Lit QUOTE))))))))));
     group1 := Plus not_quote;
     after := Lit QUOTE |}.

End Regex.

(** ** Python values the script handles *)

(** A [dict] with [str] keys: insertion-ordered; setting a key that is
    present replaces its value and keeps its place. *)
Section Dict.

Variable V : Type.

Definition dict := list (str * V).

Fixpoint dict_set (d : dict) (k : str) (v : V) : dict :=
  match d with
  | [] => [(k, v)]
  | (k', v') :: d' =>
      if str_eqb k' k then (k, v) :: d' else (k', v') :: dict_set d' k v
  end.

Fixpoint dict_get (d : dict) (k : str) : option V :=
  match d with
  | [] => None
  | (k', v') :: d' => if str_eqb k' k then Some v' else dict_get d' k
  end.

Definition keys (d : dict) : list str := map fst d.

End Dict.

(** The value the scanner stores under a section name: the dict literal
    with the keys "class" and "file". *)
Record details : Type := {
  class : str;
  file : str
}.

(** An exception, as far as the script looks at it: [str(e)]. *)
Record exn : Type := Exception { message : str }.

(** ** The file system the script runs against *)

(** What happens when a file is opened for reading and read in full. *)
Inductive on_open : Type :=
| Text (content : str)      (* [open] and [f.read()] succeed *)
| ReadFails (e : exn)       (* [open] succeeds, [f.read()] raises: I/O or decoding *)
| OpenFails (e : exn).      (* [open] itself raises *)

(** A directory's entries, in the order the file system enumerates them. *)
Inductive entry : Type :=
| File (name : str) (o : on_open)
| Dir (name : str) (children : list entry).

(** [os.path.join(a, b)] of [posixpath]. *)
Definition path_join (a b : str) : str :=
  if startswith b (lit "/") then b
  else if (match a with [] => true | _ => false end) || endswith a (lit "/")
       then a ++ b
       else a ++ lit "/" ++ b.

Definition dirnames (es : list entry) : list str :=
  flat_map (fun e => match e with Dir n _ => [n] | File _ _ => [] end) es.

(** The file names of a directory, each with what opening it will do. *)
Definition filenames (es : list entry) : list (str * on_open) :=
  flat_map (fun e => match e with File n o => [(n, o)] | Dir _ _ => [] end) es.

(** [os.walk(top)], top-down: a directory first, then its sub-directories
    in enumeration order, each walked in full before the next. *)
Fixpoint walk_entry (top : str) (e : entry)
  : list (str * list str * list (str * on_open)) :=
  match e with
  | File _ _ => []
  | Dir name children =>
      let top' := path_join top name in
      (top', dirnames children, filenames children)
        :: flat_map (walk_entry top') children
  end.

Definition os_walk (top : str) (es : list entry)
  : list (str * list str * list (str * on_open)) :=
  (top, dirnames es, filenames es) :: flat_map (walk_entry top) es.

(** The world of one run.
    - [tree]: the entries of the working directory, as [os.walk] sees them;
    - [files]: the files of the working directory by name, as
      [os.path.exists] and [open] see them;
    - [stdout]: what [print] wrote, one element per call. *)
Record world : Type := {
  tree : list entry;
  files : dict on_open;
  stdout : list str
}.

(** ** Effects: state and exceptions *)

Inductive outcome (A : Type) : Type :=
| Returned (a : A)
| Raised (e : exn).
Arguments Raised {A} e.

Definition M (A : Type) : Type := world -> outcome A * world.

Definition ret {A} (a : A) : M A := fun w => (Returned a, w).

Definition bind {A B} (m : M A) (f : A -> M B) : M B :=
  fun w =>
    match m w with
    | (Returned a, w') => f a w'
    | (Raised e, w') => (Raised e, w')
    end.

Definition raise {A} (e : exn) : M A := fun w => (Raised e, w).

(** [try: m  except Exception as e: h e] *)
Definition try_except {A} (m : M A) (h : exn -> M A) : M A :=
  fun w =>
    match m w with
    | (Returned a, w') => (Returned a, w')
    | (Raised e, w') => h e w'
    end.

Notation "x <- m ;; k" := (bind m (fun x => k))
  (at level 61, m at next level, right associativity).
Notation "m ;;; k" := (bind m (fun _ => k))
  (at level 61, right associativity).

(** [for x in l: s = body s x], with the loop's variables in [s]. *)
Fixpoint for_each {X S} (l : list X) (body : S -> X -> M S) (s : S) : M S :=
  match l with
  | [] => ret s
  | x :: l' => s' <- body s x ;; for_each l' body s'
  end.

Definition print (line : str) : M unit :=
  fun w => (Returned tt,
            {| tree := tree w; files := files w; stdout := stdout w ++ [line] |}).

Definition get_tree : M (list entry) := fun w => (Returned (tree w), w).

(** [os.path.exists(name)] *)
Definition path_exists (name : str) : M bool :=
  fun w => (Returned (match dict_get (files w) name with
                      | Some _ => true | None => false end), w).

(** [open(name, "r", encoding="utf-8")] on a name [os.path.exists] found. *)
Definition open_named (name : str) : M on_open :=
  fun w => match dict_get (files w) name with
           | Some (OpenFails e) => (Raised e, w)
           | Some o => (Returned o, w)
           | None => (Raised (Exception (lit "No such file or directory")), w)
           end.

(** [open(path, "r", encoding="utf-8")] on a file [os.walk] listed. *)
Definition open_r (o : on_open) : M on_open :=
  match o with
  | OpenFails e => raise e
  | _ => ret o
  end.

(** [f.read()] *)
Definition f_read (f : on_open) : M str :=
  match f with
  | Text content => ret content
  | ReadFails e => raise e
  | OpenFails e => raise e
  end.

(** [open(name, "w", encoding="utf-8")]: the file is created or emptied. *)
Definition open_w (name : str) : M unit :=
  fun w => (Returned tt,
            {| tree := tree w; files := dict_set (files w) name (Text []);
               stdout := stdout w |}).

(** [report.write(data)] on the file opened under [name]. *)
Definition f_write (name : str) (data : str) : M unit :=
  fun w =>
    let old := match dict_get (files w) name with
               | Some (Text c) => c
               | _ => []
               end in
    (Returned tt,
     {| tree := tree w; files := dict_set (files w) name (Text (old ++ data));
        stdout := stdout w |}).

(** [sep.join(l)] *)
Fixpoint join (sep : str) (l : list str) : str :=
  match l with
  | [] => []
  | [x] => x
  | x :: l' => x ++ sep ++ join sep l'
  end.

(** ** The script *)

Definition ROOT_DIR : str := lit ".".
Definition DOC_FILE : str := lit "SYSTEMCONFIGURATION.md".
(** The name the report is opened under in [main]. *)
Definition REPORT_FILE : str := lit "config_audit_report.md".

Arguments lit : simpl never.
Arguments ROOT_DIR : simpl never.
Arguments DOC_FILE : simpl never.
Arguments REPORT_FILE : simpl never.

Section Script.

Variable db : unicode_db.

(** The body of the inner loop for one file name the walk listed. *)
Definition scan_file (dirpath : str) (definitions : dict details)
    (f : str * on_open) : M (dict details) :=
  let (filename, o) := f in
  if endswith filename (lit ".cs") then
    let filepath := path_join dirpath filename in
    f <- open_r o ;;
    try_except
      (content <- f_read f ;;
       let class_match := re_search (CLASS_PATTERN db) content in
       let section_match := re_search (SECTION_PATTERN db) content in
       match class_match, section_match with
       | Some class_name, Some section_name =>
           ret (dict_set definitions section_name
                  {| class := class_name; file := filepath |})
       | _, _ => ret definitions
       end)
      (fun e =>
         print (lit "Skipping " ++ filepath ++ lit ": " ++ message e) ;;;
         ret definitions)
  else ret definitions.

Definition find_config_definitions (root_dir : str) : M (dict details) :=
  t <- get_tree ;;
  for_each (os_walk root_dir t)
    (fun definitions '(dirpath, _, filenames) =>
       for_each filenames (scan_file dirpath) definitions)
    [].

(** What [get_documented_sections] returns: the empty list when the file
    does not exist, the file's text otherwise. *)
Inductive doc_content : Type :=
| EmptyList
| Content (content : str).

Definition get_documented_sections (doc_path : str) : M doc_content :=
  present <- path_exists doc_path ;;
  if negb present then ret EmptyList
  else
    f <- open_named doc_path ;;
    content <- f_read f ;;
    ret (Content content).

(** [section in doc_content]: membership in the empty list, or substring
    containment in the text. *)
Definition py_in (section : str) (d : doc_content) : bool :=
  match d with
  | EmptyList => false
  | Content content => str_in section content
  end.

(** The f-string of one missing item. *)
Definition format_item (section : str) (d : details) : str :=
  lit "**" ++ section ++ lit "** (Class: `" ++ class d ++ lit "` in `"
    ++ file d ++ lit "`)".

(** The loop of [main] over [code_configs.items()]. *)
Definition missing_items_of (code_configs : dict details) (d : doc_content)
  : list str :=
  fold_left
    (fun missing_items '(section, details) =>
       if negb (py_in section d)
       then missing_items ++ [format_item section details]
       else missing_items)
    code_configs [].

(** The branch of [main] on [missing_items]. *)
Definition report (missing_items : list str) : M unit :=
  match missing_items with
  | _ :: _ =>
      print (NL ++ lit "Missing Configuration Documentation Found:") ;;;
      print (join NL missing_items) ;;;
      open_w REPORT_FILE ;;;
      f_write REPORT_FILE
        (lit "### Missing Configuration Sections in " ++ DOC_FILE ++ NL ++ NL) ;;;
      f_write REPORT_FILE
        (lit "The following configuration sections were found in the code but are missing from documentation:" ++ NL ++ NL) ;;;
      for_each missing_items
        (fun _ item => f_write REPORT_FILE (lit "- [ ] " ++ item ++ NL)) tt
  | [] =>
      print (NL ++ lit "All configuration sections appear to be documented.")
  end.

(** [main()].  The Python function returns nothing; the model hands back
    the [missing_items] the run built, so that statements can name it. *)
Definition main : M (list str) :=
  print (lit "Scanning codebase for configuration options...") ;;;
  code_configs <- find_config_definitions ROOT_DIR ;;
  print (lit "Reading " ++ DOC_FILE ++ lit "...") ;;;
  doc_content <- get_documented_sections DOC_FILE ;;
  let missing_items := missing_items_of code_configs doc_content in
  report missing_items ;;;
  ret missing_items.

End Script.

(** ** What the statements below speak of *)

(** The words a regular expression denotes. *)
Fixpoint lang (r : regex) (w : str) : Prop :=
  match r with
  | Lit l => w = l
  | Plus c => w <> [] /\ forallb c w = true
  | Star c => forallb c w = true
  | Opt r' => w = [] \/ lang r' w
  | Seq r1 r2 => exists w1 w2, w = w1 ++ w2 /\ lang r1 w1 /\ lang r2 w2
  end.

(** The pattern matches at the head of [s] with [g] as its group. *)
Definition match_at (p : pattern) (s g : str) : Prop :=
  exists w1 w3 post,
    s = w1 ++ g ++ w3 ++ post /\
    lang (before p) w1 /\ lang (group1 p) g /\ lang (after p) w3.

(** [g] is the group of a match of [p] in [s] that starts where no earlier
    position has a match. *)
Definition first_match (p : pattern) (s g : str) : Prop :=
  exists pre rest,
    s = pre ++ rest /\ match_at p rest g /\
    forall pre' rest' g',
      s = pre' ++ rest' -> length pre' < length pre -> ~ match_at p rest' g'.

(** The files the scan opens, in the order it opens them: every listed
    name ending in [.cs], under its joined path. *)
Definition candidates (root_dir : str) (t : list entry)
  : list (str * on_open) :=
  flat_map
    (fun '(dirpath, _, filenames) =>
       map (fun f => (path_join dirpath (fst f), snd f))
         (filter (fun f => endswith (fst f) (lit ".cs")) filenames))
    (os_walk root_dir t).

(** The world with its standard output replaced. *)
Definition set_stdout (w : world) (out : list str) : world :=
  {| tree := tree w; files := files w; stdout := out |}.

(** What came out of a run, without the world. *)
Definition result {A} (r : outcome A * world) : outcome A := fst r.

Section ScanSpec.

Variable db : unicode_db.

(** The entry a file under [path] declares when its text is [content]:
    both patterns must be found. *)
Definition declaration (path content : str) : option (str * details) :=
  match re_search (CLASS_PATTERN db) content,
        re_search (SECTION_PATTERN db) content with
  | Some class_name, Some section_name =>
      Some (section_name, {| class := class_name; file := path |})
  | _, _ => None
  end.

Definition record (defs : dict details) (d : option (str * details))
  : dict details :=
  match d with
  | Some (k, v) => dict_set defs k v
  | None => defs
  end.

(** The scan as a function of the files it opens: the mapping so far and
    the lines printed so far go in, the outcome and the lines come out. *)
Fixpoint scan_pure (cands : list (str * on_open)) (defs : dict details)
    (out : list str) : outcome (dict details) * list str :=
  match cands with
  | [] => (Returned defs, out)
  | (path, Text content) :: l =>
      scan_pure l (record defs (declaration path content)) out
  | (path, ReadFails e) :: l =>
      scan_pure l defs (out ++ [lit "Skipping " ++ path ++ lit ": " ++ message e])
  | (path, OpenFails e) :: _ => (Raised e, out)
  end.

(** The diagnostics of the files that were opened and could not be read. *)
Definition diagnostics (cands : list (str * on_open)) : list str :=
  flat_map
    (fun f => match snd f with
              | ReadFails e =>
                  [lit "Skipping " ++ fst f ++ lit ": " ++ message e]
              | _ => []
              end)
    cands.

(** The entries of the files that were read, recorded in order. *)
Definition recorded (cands : list (str * on_open)) (defs : dict details)
  : dict details :=
  fold_left
    (fun d f => match snd f with
                | Text content => record d (declaration (fst f) content)
                | _ => d
                end)
    cands defs.

End ScanSpec.

(** What loading the documentation comes to in a world. *)
Definition doc_loaded (w : world) : outcome doc_content :=
  match dict_get (files w) DOC_FILE with
  | None => Returned EmptyList
  | Some (Text content) => Returned (Content content)
  | Some (ReadFails e) => Raised e
  | Some (OpenFails e) => Raised e
  end.

(** Everything [main] writes to the report, in the order of the writes. *)
Definition report_text (missing_items : list str) : str :=
  (lit "### Missing Configuration Sections in " ++ DOC_FILE ++ NL ++ NL)
  ++ (lit "The following configuration sections were found in the code but are missing from documentation:" ++ NL ++ NL)
  ++ concat (map (fun item => lit "- [ ] " ++ item ++ NL) missing_items).

(** The report as section 6 of the specification lays it out: the header
    line naming the documentation file, a blank line, the fixed sentence, a
    blank line, and one checklist line per gap. *)
Definition spec_report_lines (doc_file_name : str)
    (gaps : list (str * details)) : list str :=
  [ lit "### Missing Configuration Sections in " ++ doc_file_name;
    [];
    lit "The following configuration sections were found in the code but are missing from documentation:";
    [] ]
  ++ map (fun g =>
            lit "- [ ] **" ++ fst g ++ lit "** (Class: `" ++ class (snd g)
              ++ lit "` in `" ++ file (snd g) ++ lit "`)")
       gaps.

(** A text file made of the given lines, each ended by a newline. *)
Definition unlines (ls : list str) : str :=
  concat (map (fun l => l ++ NL) ls).

(** ** Further notions: the tree, the mapping's order, the patterns *)

(** The file [name] lies in the tree [es] walked from [top], at whatever
    depth; [path] is its joined path and [o] what opening it does. *)
Inductive located : str -> list entry -> str -> str -> on_open -> Prop :=
| located_here (top : str) (es : list entry) (name : str) (o : on_open) :
    In (File name o) es ->
    located top es (path_join top name) name o
| located_below (top : str) (es : list entry) (d : str)
    (children : list entry) (path name : str) (o : on_open) :
    In (Dir d children) es ->
    located (path_join top d) children path name o ->
    located top es path name o.

(** The tree without the files whose name does not end in [.cs]. *)
Fixpoint prune_entry (e : entry) : list entry :=
  match e with
  | File name _ => if endswith name (lit ".cs") then [e] else []
  | Dir name children => [Dir name (flat_map prune_entry children)]
  end.

Definition prune (es : list entry) : list entry := flat_map prune_entry es.

(** No name of the tree starts with a slash (a directory entry's name
    holds none at all). *)
Fixpoint names_ok_entry (e : entry) : bool :=
  match e with
  | File name _ => negb (startswith name (lit "/"))
  | Dir name children =>
      negb (startswith name (lit "/")) && forallb names_ok_entry children
  end.

Definition names_ok (es : list entry) : bool := forallb names_ok_entry es.

(** The candidates among the file names of one directory. *)
Definition source_files (dirpath : str) (filenames : list (str * on_open))
  : list (str * on_open) :=
  map (fun f => (path_join dirpath (fst f), snd f))
    (filter (fun f => endswith (fst f) (lit ".cs")) filenames).

(** The candidates an entry of the directory [top] brings: those of the
    tree below it when it is a directory, none when it is a file. *)
Definition below (top : str) (e : entry) : list (str * on_open) :=
  match e with
  | Dir d children => candidates (path_join top d) children
  | File _ _ => []
  end.

(** The scan root itself, or a path below it. *)
Definition under_dot (top : str) : Prop :=
  top = lit "." \/ startswith top (lit "./") = true.

(** [open] succeeds on the file. *)
Definition opens (f : str * on_open) : bool :=
  match snd f with
  | OpenFails _ => false
  | _ => true
  end.

(** The elements of a list in the order of their first occurrence. *)
Fixpoint first_occurrences (l : list str) : list str :=
  match l with
  | [] => []
  | x :: l' => x :: remove (list_eq_dec N.eq_dec) x (first_occurrences l')
  end.

(** [k] is not among the names seen so far. *)
Definition fresh (seen : list str) (k : str) : bool :=
  if in_dec (list_eq_dec N.eq_dec) k seen then false else true.

(** The section names the files that were read declare, file by file. *)
Definition declared_sections (db : unicode_db) (cands : list (str * on_open))
  : list str :=
  flat_map
    (fun f => match snd f with
              | Text content =>
                  match declaration db (fst f) content with
                  | Some (k, _) => [k]
                  | None => []
                  end
              | _ => []
              end)
    cands.

(** A non-empty run of white space. *)
Definition spaces (db : unicode_db) (ws : str) : Prop :=
  ws <> [] /\ forallb (is_space db) ws = true.

(** [rest] starts with a type declaration in the sense of [CLASS_PATTERN]
    whose name is [g]. *)
Definition class_declaration (db : unicode_db) (rest g : str) : Prop :=
  exists ws1 mid ws3 stem post,
    rest = lit "public" ++ ws1 ++ mid ++ lit "class" ++ ws3 ++ g ++ post /\
    spaces db ws1 /\
    (mid = [] \/ exists ws2, mid = lit "sealed" ++ ws2 /\ spaces db ws2) /\
    spaces db ws3 /\
    g = stem ++ lit "Options" /\
    stem <> [] /\ forallb (is_word db) stem = true.

(** [rest] starts with a section constant in the sense of
    [SECTION_PATTERN] whose literal is [g]. *)
Definition section_constant (db : unicode_db) (rest g : str) : Prop :=
  exists ws1 ws2 ws3 ws4 ws5 post,
    rest = lit "public" ++ ws1 ++ lit "const" ++ ws2 ++ lit "string" ++ ws3
             ++ lit "SectionName" ++ ws4 ++ lit "=" ++ ws5
             ++ QUOTE ++ g ++ QUOTE ++ post /\
    spaces db ws1 /\ spaces db ws2 /\ spaces db ws3 /\
    forallb (is_space db) ws4 = true /\ forallb (is_space db) ws5 = true /\
    g <> [] /\ forallb not_quote g = true.

(** ** Worlds the statements are tried on *)

Definition audio_src : str :=
  lit "public sealed class AudioOptions { public const string SectionName = "
    ++ QUOTE ++ lit "Audio" ++ QUOTE ++ lit "; }".

Definition sound_src : str :=
  lit "public class SoundOptions { public const string SectionName = "
    ++ QUOTE ++ lit "Audio" ++ QUOTE ++ lit "; }".

Definition audio_tree : list entry :=
  [File (lit "README.md") (Text (lit "docs"));
   Dir (lit "src") [File (lit "Audio.cs") (Text audio_src)]].

(** One definition, no documentation file. *)
Definition w_no_doc : world :=
  {| tree := audio_tree; files := []; stdout := [] |}.

(** One definition, documented; an older report lies around. *)
Definition w_documented : world :=
  {| tree := audio_tree;
     files := [(DOC_FILE, Text (lit "### Audio"));
               (REPORT_FILE, Text (lit "old report"))];
     stdout := [] |}.

(** One definition; the documentation only says [Audi]. *)
Definition w_audi : world :=
  {| tree := audio_tree;
     files := [(DOC_FILE, Text (lit "Audi"));
               (REPORT_FILE, Text (lit "old report"))];
     stdout := [] |}.

(** Two files in different directories declare the section [Audio]. *)
Definition w_duplicate : world :=
  {| tree := [Dir (lit "a") [File (lit "Audio.cs") (Text audio_src)];
              Dir (lit "b") [File (lit "Sound.cs") (Text sound_src)]];
     files := []; stdout := [] |}.

(** A source file that cannot be opened, listed before a good one. *)
Definition w_unopenable : world :=
  {| tree := [File (lit "Locked.cs")
                (OpenFails (Exception (lit "[Errno 13] Permission denied")));
              File (lit "Audio.cs") (Text audio_src)];
     files := []; stdout := [] |}.

(** A source file that cannot be decoded, listed before a good one. *)
Definition w_undecodable : world :=
  {| tree := [File (lit "Binary.cs")
                (ReadFails (Exception (lit "invalid start byte")));
              File (lit "Audio.cs") (Text audio_src)];
     files := []; stdout := [] |}.

(** No file with the source extension; an older report lies around. *)
Definition w_no_sources : world :=
  {| tree := [File (lit "README.md") (Text (lit "docs"))];
     files := [(REPORT_FILE, Text (lit "old report"))];
     stdout := [] |}.

(** * Properties *)

(** ** Text *)

Lemma strip_prefix_app (p r : str) : strip_prefix p (p ++ r) = Some r.
Proof.
  induction p as [|a p IH]; simpl; [reflexivity|].
  now rewrite N.eqb_refl.
Qed.

Lemma strip_prefix_inv (p s r : str) : strip_prefix p s = Some r -> s = p ++ r.
Proof.
  revert s; induction p as [|a p IH]; intros s H; simpl in *.
  - now inversion H.
  - destruct s as [|b s]; [discriminate|].
    destruct (N.eqb_spec a b); [|discriminate].
    subst b. f_equal. now apply IH.
Qed.

Lemma startswith_iff (s p : str) :
  startswith s p = true <-> exists r, s = p ++ r.
Proof.
  unfold startswith. split.
  - destruct (strip_prefix p s) eqn:E; [|discriminate].
    intros _. eexists. eapply strip_prefix_inv; eauto.
  - intros [r ->]. now rewrite strip_prefix_app.
Qed.

Lemma str_in_iff (needle hay : str) :
  str_in needle hay = true <-> Substring needle hay.
Proof.
  unfold Substring. induction hay as [|a hay IH].
  - simpl. rewrite orb_false_r, startswith_iff. split.
    + intros [r H]. exists [], r. exact H.
    + intros [pre [post H]]. destruct pre; simpl in *.
      * now exists post.
      * discriminate.
  - cbn [str_in]. rewrite orb_true_iff, startswith_iff, IH. split.
    + intros [[r H]|[pre [post H]]].
      * exists [], r. exact H.
      * exists (a :: pre), post. simpl. now rewrite H.
    + intros [pre [post H]]. destruct pre as [|b pre]; simpl in *.
      * left. now exists post.
      * right. inversion H. now exists pre, post.
Qed.

Lemma str_eqb_eq (a b : str) : str_eqb a b = true <-> a = b.
Proof.
  unfold str_eqb. destruct (list_eq_dec N.eq_dec a b); split; congruence.
Qed.

Lemma str_eqb_refl (a : str) : str_eqb a a = true.
Proof. now apply str_eqb_eq. Qed.

Lemma str_eqb_neq (a b : str) : str_eqb a b = false <-> a <> b.
Proof.
  unfold str_eqb. destruct (list_eq_dec N.eq_dec a b); split; congruence.
Qed.

(** ** The matcher against the language of a pattern *)

Section RegexFacts.

Variable db : unicode_db.

Lemma rep_sound {R} (c : N -> bool) (s : str) (k : str -> option R) (x : R) :
  rep c s k = Some x ->
  exists w s', s = w ++ s' /\ forallb c w = true /\ k s' = Some x.
Proof.
  induction s as [|a s IH]; simpl; intros H.
  - now exists [], [].
  - destruct (c a) eqn:Ca.
    + destruct (rep c s k) eqn:E.
      * inversion H; subst r. destruct (IH eq_refl) as (w & s' & -> & Hw & Hk).
        exists (a :: w), s'. simpl. now rewrite Ca, Hw.
      * now exists [], (a :: s).
    + now exists [], (a :: s).
Qed.

Lemma rep_complete {R} (c : N -> bool) (w s' : str)
    (k : str -> option R) (x : R) :
  forallb c w = true -> k s' = Some x -> exists y, rep c (w ++ s') k = Some y.
Proof.
  induction w as [|a w IH]; simpl; intros Hw Hk.
  - destruct s' as [|b s']; simpl; [eauto|].
    destruct (c b); [|eauto].
    destruct (rep c s' k); eauto.
  - apply andb_true_iff in Hw as [Ca Hw]. rewrite Ca.
    destruct (IH Hw Hk) as [y ->]. eauto.
Qed.

Lemma rmatch_sound {R} (r : regex) :
  forall (s : str) (k : str -> option R) (x : R),
    rmatch r s k = Some x ->
    exists w s', s = w ++ s' /\ lang r w /\ k s' = Some x.
Proof.
  induction r as [l|c|c|r IH|r1 IH1 r2 IH2]; intros s k x H; simpl in *.
  - destruct (strip_prefix l s) as [s'|] eqn:E; [|discriminate].
    exists l, s'. split; [now apply strip_prefix_inv|auto].
  - destruct s as [|a s]; [discriminate|].
    destruct (c a) eqn:Ca; [|discriminate].
    destruct (rep_sound _ _ _ H) as (w & s' & -> & Hw & Hk).
    exists (a :: w), s'. simpl. rewrite Ca, Hw. repeat split; auto; discriminate.
  - destruct (rep_sound _ _ _ H) as (w & s' & -> & Hw & Hk).
    now exists w, s'.
  - destruct (rmatch r s k) eqn:E.
    + inversion H; subst r0. destruct (IH _ _ _ E) as (w & s' & -> & Hw & Hk).
      exists w, s'. auto.
    + exists [], s. auto.
  - destruct (IH1 _ _ _ H) as (w1 & s1 & -> & Hw1 & H1).
    destruct (IH2 _ _ _ H1) as (w2 & s2 & -> & Hw2 & H2).
    exists (w1 ++ w2), s2. rewrite app_assoc. repeat split; auto.
    now exists w1, w2.
Qed.

Lemma rmatch_complete {R} (r : regex) :
  forall (w s' : str) (k : str -> option R) (x : R),
    lang r w -> k s' = Some x -> exists y, rmatch r (w ++ s') k = Some y.
Proof.
  induction r as [l|c|c|r IH|r1 IH1 r2 IH2]; intros w s' k x Hw Hk; simpl in *.
  - subst w. rewrite strip_prefix_app. eauto.
  - destruct Hw as [Hne Hall]. destruct w as [|a w]; [congruence|].
    simpl in *. apply andb_true_iff in Hall as [Ca Hall]. rewrite Ca.
    eapply rep_complete; eauto.
  - eapply rep_complete; eauto.
  - destruct Hw as [->|Hw].
    + simpl. destruct (rmatch r s' k); eauto.
    + destruct (IH _ _ _ _ Hw Hk) as [y ->]. eauto.
  - destruct Hw as (w1 & w2 & -> & H1 & H2).
    rewrite <- app_assoc.
    destruct (IH2 _ _ _ _ H2 Hk) as [y Hy].
    eapply IH1; eauto.
Qed.

Lemma match_here_sound (p : pattern) (s g : str) :
  match_here p s = Some g -> match_at p s g.
Proof.
  unfold match_here, match_at. intros H.
  destruct (rmatch_sound _ _ _ H) as (w1 & s1 & -> & Hw1 & H1).
  destruct (rmatch_sound _ _ _ H1) as (w2 & s2 & -> & Hw2 & H2).
  destruct (rmatch_sound _ _ _ H2) as (w3 & s3 & -> & Hw3 & H3).
  inversion H3 as [Hg]. clear H3.
  rewrite length_app, Nat.add_sub, firstn_app, Nat.sub_diag, firstn_all.
  simpl. rewrite app_nil_r.
  exists w1, w3, s3. auto.
Qed.

Lemma match_here_complete (p : pattern) (s g : str) :
  match_at p s g -> exists g', match_here p s = Some g'.
Proof.
  unfold match_here, match_at. intros (w1 & w3 & post & -> & H1 & H2 & H3).
  set (s1 := g ++ w3 ++ post).
  assert (E3 : exists y, rmatch (after p) (w3 ++ post)
            (fun _ => Some (firstn (length s1 - length (w3 ++ post)) s1))
          = Some y)
    by (eapply rmatch_complete; [exact H3|reflexivity]).
  destruct E3 as [y3 E3].
  assert (E2 : exists y, rmatch (group1 p) s1
            (fun s2 => rmatch (after p) s2
               (fun _ => Some (firstn (length s1 - length s2) s1)))
          = Some y)
    by (eapply rmatch_complete; [exact H2|exact E3]).
  destruct E2 as [y2 E2].
  eapply rmatch_complete; [exact H1|exact E2].
Qed.

Lemma re_search_sound (p : pattern) (s g : str) :
  re_search p s = Some g ->
  exists pre rest,
    s = pre ++ rest /\ match_here p rest = Some g /\
    forall pre' rest' g',
      s = pre' ++ rest' -> length pre' < length pre -> ~ match_at p rest' g'.
Proof.
  induction s as [|a s IH]; simpl; intros H.
  - destruct (match_here p []) eqn:E; [|discriminate].
    inversion H; subst s. exists [], []. repeat split; auto.
    simpl. intros; lia.
  - destruct (match_here p (a :: s)) eqn:E.
    + inversion H; subst s0. exists [], (a :: s). repeat split; auto.
      simpl. intros; lia.
    + destruct (IH H) as (pre & rest & -> & Hm & Hmin).
      exists (a :: pre), rest. repeat split; auto.
      intros pre' rest' g' Hs Hlen M.
      destruct pre' as [|b pre']; simpl in *.
      * subst rest'. destruct (match_here_complete M) as [g'' Hg].
        congruence.
      * inversion Hs; subst b. eapply Hmin; eauto. lia.
Qed.

Lemma re_search_none (p : pattern) (s : str) :
  re_search p s = None ->
  forall pre rest g, s = pre ++ rest -> ~ match_at p rest g.
Proof.
  induction s as [|a s IH]; simpl; intros H pre rest g Hs M.
  - destruct (match_here p []) eqn:E; [discriminate|].
    symmetry in Hs. apply app_eq_nil in Hs as [-> ->].
    destruct (match_here_complete M) as [g' Hg]. congruence.
  - destruct (match_here p (a :: s)) eqn:E; [discriminate|].
    destruct pre as [|b pre]; simpl in *.
    + subst rest. destruct (match_here_complete M) as [g' Hg]. congruence.
    + inversion Hs; subst. eapply IH; eauto.
Qed.

(** The group of a search result is a word of the pattern's group. *)
Lemma re_search_group (p : pattern) (s g : str) :
  re_search p s = Some g -> lang (group1 p) g.
Proof.
  intros H. destruct (re_search_sound _ _ H) as (pre & rest & _ & Hm & _).
  destruct (match_here_sound _ _ Hm) as (w1 & w3 & post & _ & _ & Hg & _).
  exact Hg.
Qed.

Lemma is_word_Options : forallb (is_word db) (lit "Options") = true.
Proof. reflexivity. Qed.

(** What the group of [CLASS_PATTERN] can capture. *)
Lemma class_group_shape (s g : str) :
  re_search (CLASS_PATTERN db) s = Some g ->
  exists stem, g = stem ++ lit "Options" /\ stem <> [] /\
               forallb (is_word db) g = true.
Proof.
  intros H. apply re_search_group in H. simpl in H.
  destruct H as (w1 & w2 & -> & [Hne Hall] & ->).
  exists w1. repeat split; auto.
  now rewrite forallb_app, Hall, is_word_Options.
Qed.

(** What the group of [SECTION_PATTERN] can capture. *)
Lemma section_group_shape (s g : str) :
  re_search (SECTION_PATTERN db) s = Some g ->
  g <> [] /\ ~ In 34%N g.
Proof.
  intros H. apply re_search_group in H. simpl in H.
  destruct H as [Hne Hall]. split; [exact Hne|].
  intros Hin. rewrite forallb_forall in Hall.
  specialize (Hall _ Hin). discriminate.
Qed.

End RegexFacts.

(** ** The scanner as a function of the files it opens *)

Lemma set_stdout_id (w : world) : set_stdout w (stdout w) = w.
Proof. now destruct w. Qed.

Section ScanFacts.

Variable db : unicode_db.

Lemma scan_pure_app (l1 l2 : list (str * on_open)) :
  forall defs out,
    scan_pure db (l1 ++ l2) defs out =
    match scan_pure db l1 defs out with
    | (Returned d, o) => scan_pure db l2 d o
    | (Raised e, o) => (Raised e, o)
    end.
Proof.
  induction l1 as [|[path o] l1 IH]; intros defs out; simpl; [reflexivity|].
  destruct o; auto.
Qed.

(** The inner loop, over the names of one directory. *)
Lemma inner_loop_pure (dirpath : str) (filenames : list (str * on_open)) :
  forall defs w,
    for_each filenames (scan_file db dirpath) defs w =
    let (r, out) :=
      scan_pure db
        (map (fun f => (path_join dirpath (fst f), snd f))
           (filter (fun f => endswith (fst f) (lit ".cs")) filenames))
        defs (stdout w) in
    (r, set_stdout w out).
Proof.
  induction filenames as [|[filename o] l IH]; intros defs w.
  - simpl. now rewrite set_stdout_id.
  - cbn [for_each filter fst]. unfold bind at 1. unfold scan_file at 1.
    destruct (endswith filename (lit ".cs")) eqn:E.
    + cbn [map fst snd scan_pure]. destruct o as [content|e|e].
      * unfold bind, open_r, try_except, f_read, ret. cbn.
        fold (declaration db (path_join dirpath filename) content).
        unfold declaration.
        destruct (re_search (CLASS_PATTERN db) content);
          destruct (re_search (SECTION_PATTERN db) content); cbn; apply IH.
      * unfold bind, open_r, try_except, f_read, ret, raise, print. cbn.
        rewrite IH. reflexivity.
      * unfold bind, open_r, raise. cbn. now rewrite set_stdout_id.
    + unfold ret. apply IH.
Qed.

(** The two nested loops are one loop over [candidates]. *)
Lemma scan_as_function (root_dir : str) (w : world) :
  find_config_definitions db root_dir w =
  let (r, out) := scan_pure db (candidates root_dir (tree w)) [] (stdout w) in
  (r, set_stdout w out).
Proof.
  unfold find_config_definitions, candidates, bind, get_tree.
  generalize (os_walk root_dir (tree w)) as dirs.
  generalize (@nil (str * details)) as defs.
  intros defs dirs; revert defs w.
  induction dirs as [|[[dirpath ds] filenames] dirs IH]; intros defs w.
  - simpl. unfold ret. now rewrite set_stdout_id.
  - cbn [for_each flat_map]. unfold bind at 1.
    rewrite inner_loop_pure, scan_pure_app.
    destruct (scan_pure db _ defs (stdout w)) as [[d|e] o]; [|reflexivity].
    rewrite IH. reflexivity.
Qed.

End ScanFacts.

(** ** The mapping *)

Section DictFacts.

Variable V : Type.
Implicit Types (d : dict V) (k : str) (v : V).

Lemma dict_get_set_same d k v : dict_get (dict_set d k v) k = Some v.
Proof.
  induction d as [|[k' v'] d IH]; simpl.
  - now rewrite str_eqb_refl.
  - destruct (str_eqb k' k) eqn:E; simpl.
    + now rewrite str_eqb_refl.
    + now rewrite E.
Qed.

Lemma dict_get_set_other d k v k' :
  k <> k' -> dict_get (dict_set d k v) k' = dict_get d k'.
Proof.
  intros Hne. induction d as [|[k0 v0] d IH]; simpl.
  - apply str_eqb_neq in Hne. now rewrite Hne.
  - destruct (str_eqb k0 k) eqn:E; simpl.
    + apply str_eqb_eq in E. subst k0.
      apply str_eqb_neq in Hne. now rewrite Hne.
    + now rewrite IH.
Qed.

Lemma keys_set_in d k v : In k (keys d) -> keys (dict_set d k v) = keys d.
Proof.
  induction d as [|[k0 v0] d IH]; simpl; intros H; [tauto|].
  destruct (str_eqb k0 k) eqn:E; simpl.
  - apply str_eqb_eq in E. now subst.
  - f_equal. apply IH. destruct H as [H|H]; [|exact H].
    apply str_eqb_neq in E. congruence.
Qed.

Lemma keys_set_new d k v :
  ~ In k (keys d) -> keys (dict_set d k v) = keys d ++ [k].
Proof.
  induction d as [|[k0 v0] d IH]; simpl; intros H; [reflexivity|].
  destruct (str_eqb k0 k) eqn:E; simpl.
  - apply str_eqb_eq in E. tauto.
  - f_equal. apply IH. tauto.
Qed.

Lemma keys_set_NoDup d k v : NoDup (keys d) -> NoDup (keys (dict_set d k v)).
Proof.
  intros H. destruct (in_dec (list_eq_dec N.eq_dec) k (keys d)) as [Hin|Hout].
  - now rewrite keys_set_in.
  - rewrite keys_set_new by assumption.
    apply NoDup_app; [exact H|repeat constructor; simpl; tauto|].
    intros x Hx [<-|[]]. tauto.
Qed.

Lemma in_dict_set d k v k' v' :
  In (k', v') (dict_set d k v) -> (k', v') = (k, v) \/ In (k', v') d.
Proof.
  induction d as [|[k0 v0] d IH]; simpl.
  - intros [H|[]]. now left.
  - destruct (str_eqb k0 k); simpl; intuition auto.
Qed.

Lemma dict_get_in d k v : dict_get d k = Some v -> In (k, v) d.
Proof.
  induction d as [|[k0 v0] d IH]; simpl; [discriminate|].
  destruct (str_eqb k0 k) eqn:E.
  - apply str_eqb_eq in E. intros H; inversion H; subst. now left.
  - auto.
Qed.

Lemma in_dict_get d k v : NoDup (keys d) -> In (k, v) d -> dict_get d k = Some v.
Proof.
  induction d as [|[k0 v0] d IH]; simpl; intros Hnd Hin; [tauto|].
  inversion Hnd as [|? ? Hnotin Hnd']; subst.
  destruct Hin as [Hin|Hin].
  - inversion Hin; subst. now rewrite str_eqb_refl.
  - destruct (str_eqb k0 k) eqn:E.
    + apply str_eqb_eq in E. subst k0. exfalso. apply Hnotin.
      change k with (fst (k, v)). now apply in_map.
    + auto.
Qed.

End DictFacts.

Section ScanResult.

Variable db : unicode_db.

Lemma record_NoDup (defs : dict details) (d : option (str * details)) :
  NoDup (keys defs) -> NoDup (keys (record defs d)).
Proof.
  destruct d as [[k v]|]; simpl; auto using keys_set_NoDup.
Qed.

Lemma scan_pure_NoDup (l : list (str * on_open)) :
  forall defs out final out',
    scan_pure db l defs out = (Returned final, out') ->
    NoDup (keys defs) -> NoDup (keys final).
Proof.
  induction l as [|[path o] l IH]; simpl; intros defs out final out' H Hnd.
  - inversion H; now subst.
  - destruct o; [eapply IH; eauto using record_NoDup | eapply IH; eauto
                | discriminate].
Qed.

(** A scan that returns never met a file it could not open. *)
Lemma scan_pure_returned_opens (l : list (str * on_open)) :
  forall defs out final out',
    scan_pure db l defs out = (Returned final, out') ->
    forall path e, ~ In (path, OpenFails e) l.
Proof.
  induction l as [|[path o] l IH]; simpl; intros defs out final out' H p e Hin.
  - exact Hin.
  - destruct Hin as [Hin|Hin].
    + inversion Hin; subst. discriminate.
    + destruct o; [eapply IH; eauto | eapply IH; eauto | discriminate].
Qed.

(** Every entry of the result was there before or is declared by a file
    that was read. *)
Lemma scan_pure_origin (l : list (str * on_open)) :
  forall defs out final out',
    scan_pure db l defs out = (Returned final, out') ->
    forall k v, In (k, v) final ->
      In (k, v) defs \/
      exists path content,
        In (path, Text content) l /\ declaration db path content = Some (k, v).
Proof.
  induction l as [|[path o] l IH]; simpl; intros defs out final out' H k v Hin.
  - inversion H; subst. now left.
  - destruct o as [content|e|e]; [| |discriminate].
    + destruct (IH _ _ _ _ H _ _ Hin) as [Hd|(p & c & Hp & Hc)].
      * destruct (declaration db path content) as [[k' v']|] eqn:D; simpl in Hd.
        -- apply in_dict_set in Hd as [Hd|Hd]; [|now left].
           inversion Hd; subst. right. exists path, content. auto.
        -- now left.
      * right. exists p, c. auto.
    + destruct (IH _ _ _ _ H _ _ Hin) as [Hd|(p & c & Hp & Hc)]; [now left|].
      right. exists p, c. auto.
Qed.

(** Files that do not declare [k] leave what is stored under [k] alone. *)
Lemma scan_pure_get_frame (k : str) (l : list (str * on_open)) :
  forall defs out final out',
    scan_pure db l defs out = (Returned final, out') ->
    (forall path content v,
        In (path, Text content) l -> declaration db path content <> Some (k, v)) ->
    dict_get final k = dict_get defs k.
Proof.
  induction l as [|[path o] l IH]; simpl; intros defs out final out' H Hno.
  - inversion H; now subst.
  - destruct o as [content|e|e]; [| |discriminate].
    + rewrite (IH _ _ _ _ H) by eauto.
      destruct (declaration db path content) as [[k' v']|] eqn:D; simpl; auto.
      apply dict_get_set_other. intros ->. eapply Hno; eauto.
    + eapply IH; eauto.
Qed.

(** Last write wins. *)
Lemma scan_pure_last_wins (l1 l2 : list (str * on_open))
    (path content k : str) (v : details) :
  forall defs out final out',
    scan_pure db (l1 ++ (path, Text content) :: l2) defs out
      = (Returned final, out') ->
    declaration db path content = Some (k, v) ->
    (forall path' content' v',
        In (path', Text content') l2 ->
        declaration db path' content' <> Some (k, v')) ->
    dict_get final k = Some v.
Proof.
  intros defs out final out' H D Hno.
  rewrite scan_pure_app in H.
  destruct (scan_pure db l1 defs out) as [[d1|e] o1]; [|discriminate].
  simpl in H. rewrite D in H. simpl in H.
  etransitivity; [eapply scan_pure_get_frame; eassumption|].
  apply dict_get_set_same.
Qed.

End ScanResult.

(** ** The run as a whole *)

Section MainFacts.

Variable db : unicode_db.

Lemma scan_pure_out (l : list (str * on_open)) :
  forall defs out,
    scan_pure db l defs out =
    (fst (scan_pure db l defs []), out ++ snd (scan_pure db l defs [])).
Proof.
  induction l as [|[path o] l IH]; intros defs out; simpl.
  - now rewrite app_nil_r.
  - destruct o as [content|e|e].
    + apply IH.
    + rewrite IH. rewrite (IH defs [_]). simpl. now rewrite <- app_assoc.
    + now rewrite app_nil_r.
Qed.

(** The scan reads the tree only, and only prints. *)
Lemma scan_result_tree (root_dir : str) (w : world) :
  result (find_config_definitions db root_dir w)
  = fst (scan_pure db (candidates root_dir (tree w)) [] []).
Proof.
  unfold result. rewrite scan_as_function, scan_pure_out.
  reflexivity.
Qed.

Lemma missing_items_acc (d : doc_content) (code_configs : dict details) :
  forall acc : list str,
    fold_left
      (fun missing_items '(section, details) =>
         if negb (py_in section d)
         then missing_items ++ [format_item section details]
         else missing_items)
      code_configs acc
    = acc ++ map (fun e => format_item (fst e) (snd e))
               (filter (fun e => negb (py_in (fst e) d)) code_configs).
Proof.
  induction code_configs as [|[section v] l IH]; intros acc; simpl.
  - now rewrite app_nil_r.
  - rewrite IH. destruct (py_in section d); simpl; [reflexivity|].
    now rewrite <- app_assoc.
Qed.

(** The loop of [main] keeps, in order, the entries whose key is not in
    the documentation. *)
Lemma missing_items_filter (code_configs : dict details) (d : doc_content) :
  missing_items_of code_configs d
  = map (fun e => format_item (fst e) (snd e))
      (filter (fun e => negb (py_in (fst e) d)) code_configs).
Proof. apply missing_items_acc. Qed.

Lemma dict_set_twice {V} (d : dict V) (k : str) (v v' : V) :
  dict_set (dict_set d k v) k v' = dict_set d k v'.
Proof.
  induction d as [|[k0 v0] d IH]; simpl.
  - now rewrite str_eqb_refl.
  - destruct (str_eqb k0 k) eqn:E; simpl.
    + now rewrite str_eqb_refl.
    + now rewrite E, IH.
Qed.

(** The writes of the loop over the items pile up in the report. *)
Lemma write_items (items : list str) :
  forall (w : world) (acc : str),
    dict_get (files w) REPORT_FILE = Some (Text acc) ->
    for_each items
      (fun (_ : unit) item => f_write REPORT_FILE (lit "- [ ] " ++ item ++ NL))
      tt w
    = (Returned tt,
       {| tree := tree w;
          files := dict_set (files w) REPORT_FILE
                     (Text (acc ++ concat
                              (map (fun item => lit "- [ ] " ++ item ++ NL)
                                 items)));
          stdout := stdout w |}).
Proof.
  induction items as [|item items IH]; intros w acc Hget.
  - simpl. unfold ret. rewrite app_nil_r. destruct w as [t fs out]. simpl in *.
    f_equal. f_equal.
    clear -Hget. induction fs as [|[k0 v0] fs IHfs]; simpl in *; [discriminate|].
    destruct (str_eqb k0 REPORT_FILE) eqn:E.
    + apply str_eqb_eq in E. congruence.
    + now rewrite <- IHfs.
  - cbn [for_each]. unfold bind at 1. unfold f_write at 1. rewrite Hget.
    rewrite IH with (acc := acc ++ lit "- [ ] " ++ item ++ NL).
    + cbn [tree files stdout map concat]. rewrite dict_set_twice.
      now rewrite <- app_assoc.
    + cbn [files]. apply dict_get_set_same.
Qed.

(** What [report] leaves behind. *)
Lemma report_spec (items : list str) (w : world) :
  exists out,
    report items w =
    (Returned tt,
     {| tree := tree w;
        files := match items with
                 | [] => files w
                 | _ :: _ => dict_set (files w) REPORT_FILE
                               (Text (report_text items))
                 end;
        stdout := out |}).
Proof.
  destruct items as [|item items].
  - eexists. reflexivity.
  - eexists. unfold report, bind, print, open_w.
    cbn [tree files stdout]. unfold f_write at 1 2.
    cbn [tree files stdout].
    rewrite !dict_get_set_same, !dict_set_twice.
    rewrite write_items with (acc :=
      ([] ++ lit "### Missing Configuration Sections in " ++ DOC_FILE ++ NL ++ NL)
      ++ lit "The following configuration sections were found in the code but are missing from documentation:" ++ NL ++ NL).
    + cbn [tree files stdout]. rewrite dict_set_twice. reflexivity.
    + cbn [files]. apply dict_get_set_same.
Qed.

Lemma get_documented_sections_spec (w : world) :
  get_documented_sections DOC_FILE w = (doc_loaded w, w).
Proof.
  unfold get_documented_sections, doc_loaded, bind, path_exists, open_named,
    f_read, ret, raise.
  destruct (dict_get (files w) DOC_FILE) as [[content|e|e]|] eqn:E;
    cbn; rewrite ?E; reflexivity.
Qed.

Lemma bind_run {A B} (m : M A) (f : A -> M B) (w : world) :
  bind m f w = match m w with
               | (Returned a, w') => f a w'
               | (Raised e, w') => (Raised e, w')
               end.
Proof. reflexivity. Qed.

Lemma bind_print {B} (line : str) (f : unit -> M B) (w : world) :
  bind (print line) f w = f tt (set_stdout w (stdout w ++ [line])).
Proof. reflexivity. Qed.

Lemma doc_loaded_set_stdout (w : world) (out : list str) :
  doc_loaded (set_stdout w out) = doc_loaded w.
Proof. reflexivity. Qed.

(** The run as a function of the scan and of the documentation file. *)
Lemma main_run (w : world) :
  exists out,
    main db w =
    match fst (scan_pure db (candidates ROOT_DIR (tree w)) [] []) with
    | Raised e => (Raised e, set_stdout w out)
    | Returned code_configs =>
        match doc_loaded w with
        | Raised e => (Raised e, set_stdout w out)
        | Returned d =>
            let items := missing_items_of code_configs d in
            (Returned items,
             {| tree := tree w;
                files := match items with
                         | [] => files w
                         | _ :: _ => dict_set (files w) REPORT_FILE
                                       (Text (report_text items))
                         end;
                stdout := out |})
        end
    end.
Proof.
  unfold main. rewrite bind_print, bind_run, scan_as_function.
  cbn [set_stdout tree files stdout]. rewrite scan_pure_out.
  destruct (fst (scan_pure db (candidates ROOT_DIR (tree w)) [] []))
    as [code_configs|e]; [|eexists; reflexivity].
  rewrite bind_print, bind_run, get_documented_sections_spec.
  rewrite !doc_loaded_set_stdout.
  destruct (doc_loaded w) as [d|e]; [|eexists; reflexivity].
  rewrite bind_run.
  match goal with
  | |- context [report ?i ?w0] => destruct (report_spec i w0) as [out ->]
  end.
  exists out. reflexivity.
Qed.

(** The run, outcome and files, as a function of the scan and of the
    documentation file. *)
Lemma main_spec (w : world) :
  tree (snd (main db w)) = tree w /\
  match result (find_config_definitions db ROOT_DIR w) with
  | Raised e =>
      result (main db w) = Raised e /\ files (snd (main db w)) = files w
  | Returned code_configs =>
      match doc_loaded w with
      | Raised e =>
          result (main db w) = Raised e /\ files (snd (main db w)) = files w
      | Returned d =>
          let items := missing_items_of code_configs d in
          result (main db w) = Returned items /\
          files (snd (main db w)) =
          match items with
          | [] => files w
          | _ :: _ => dict_set (files w) REPORT_FILE (Text (report_text items))
          end
      end
  end.
Proof.
  rewrite scan_result_tree. destruct (main_run w) as [out ->].
  unfold result.
  destruct (fst (scan_pure db (candidates ROOT_DIR (tree w)) [] []))
    as [code_configs|e]; [|now cbn].
  destruct (doc_loaded w) as [d|e]; now cbn.
Qed.

End MainFacts.

(** The three ways a run can go: the scan raised, the documentation could
    not be loaded, or the loop built its list. *)
Ltac main_cases db w :=
  let out := fresh "out" in
  destruct (main_run db w) as [out ->]; unfold result;
  destruct (fst (scan_pure db (candidates ROOT_DIR (tree w)) [] []))
    as [?code_configs|?e];
  [destruct (doc_loaded w) as [?d|?e]|];
  cbv zeta; cbn [fst snd files].

(** ** The gap check *)

Lemma py_in_content (section doc : str) :
  py_in section (Content doc) = true <-> Substring section doc.
Proof. apply str_in_iff. Qed.

(** Nothing but the empty string is a substring of the empty text. *)
Lemma str_in_empty_text (section : str) :
  section <> [] -> str_in section [] = false.
Proof.
  intros Hne. destruct section; [congruence|reflexivity].
Qed.

(** The check is case-sensitive. *)
Example check_is_case_sensitive :
  py_in (lit "Audio") (Content (lit "the audio section")) = false.
Proof. reflexivity. Qed.

(** The check knows no word boundary: a longer documented token counts. *)
Example check_has_no_word_boundary :
  py_in (lit "Audio") (Content (lit "see AudioOptionsLegacy")) = true.
Proof. reflexivity. Qed.

(** C1. For every definitions mapping and every documentation text loaded
    from an existing documentation file, the missing-items list holds, in
    the mapping's order, one item for each definition that is reported, and
    a definition is reported if and only if its section name is not a
    substring of the documentation text; the containment is exact, with no
    normalisation and no word boundary.  This list is the one a run builds
    when the scan returned the mapping and the documentation file holds the
    text. *)
Theorem gap_iff_not_substring (code_configs : dict details) (doc : str) :
  exists reported : str -> bool,
    missing_items_of code_configs (Content doc)
    = map (fun e => format_item (fst e) (snd e))
        (filter (fun e => reported (fst e)) code_configs) /\
    (forall section, reported section = true <-> ~ Substring section doc) /\
    (forall db w,
        result (find_config_definitions db ROOT_DIR w) = Returned code_configs ->
        dict_get (files w) DOC_FILE = Some (Text doc) ->
        result (main db w)
        = Returned (missing_items_of code_configs (Content doc))).
Proof.
  exists (fun section => negb (py_in section (Content doc))).
  split; [|split].
  - apply missing_items_filter.
  - intros section. rewrite negb_true_iff, <- py_in_content.
    destruct (py_in section (Content doc)); split; congruence.
  - intros db w Hscan Hdoc.
    destruct (main_spec db w) as [_ Hmain].
    rewrite Hscan in Hmain. unfold doc_loaded in Hmain. rewrite Hdoc in Hmain.
    apply Hmain.
Qed.

(** ** What the scanner's mapping holds *)

Section ScannerFacts.

Variable db : unicode_db.

Lemma scan_returned (root_dir : str) (w : world) (defs : dict details) :
  result (find_config_definitions db root_dir w) = Returned defs ->
  exists out,
    scan_pure db (candidates root_dir (tree w)) [] [] = (Returned defs, out).
Proof.
  rewrite scan_result_tree.
  destruct (scan_pure db (candidates root_dir (tree w)) [] []) as [r out].
  simpl. intros ->. now exists out.
Qed.

(** Every entry of the mapping is declared by a file that was read. *)
Lemma scan_entry_origin (root_dir : str) (w : world) (defs : dict details) :
  result (find_config_definitions db root_dir w) = Returned defs ->
  forall k v, In (k, v) defs ->
    exists path content,
      In (path, Text content) (candidates root_dir (tree w)) /\
      declaration db path content = Some (k, v).
Proof.
  intros H k v Hin. destruct (scan_returned _ _ H) as [out Hs].
  destruct (scan_pure_origin _ _ _ _ Hs _ _ Hin) as [[]|Ho]. exact Ho.
Qed.

Lemma scan_keys_NoDup (root_dir : str) (w : world) (defs : dict details) :
  result (find_config_definitions db root_dir w) = Returned defs ->
  NoDup (keys defs).
Proof.
  intros H. destruct (scan_returned _ _ H) as [out Hs].
  eapply scan_pure_NoDup; [exact Hs|constructor].
Qed.

Lemma declaration_inv (path content k : str) (v : details) :
  declaration db path content = Some (k, v) ->
  re_search (CLASS_PATTERN db) content = Some (class v) /\
  re_search (SECTION_PATTERN db) content = Some k /\
  file v = path.
Proof.
  unfold declaration.
  destruct (re_search (CLASS_PATTERN db) content);
    destruct (re_search (SECTION_PATTERN db) content); try discriminate.
  intros H; inversion H; subst. auto.
Qed.

Lemma scan_keys_nonempty (root_dir : str) (w : world) (defs : dict details) :
  result (find_config_definitions db root_dir w) = Returned defs ->
  forall k v, In (k, v) defs -> k <> [].
Proof.
  intros H k v Hin.
  destruct (scan_entry_origin _ _ H _ _ Hin) as (path & content & _ & D).
  apply declaration_inv in D as (_ & S & _).
  now apply section_group_shape in S.
Qed.

End ScannerFacts.

(** C9. For every input tree, every entry of the scanner's result mapping
    has a key that is a non-empty string without a double quote, and a
    declared type name that is non-empty, made of word characters only, and
    ends in Options. *)
Theorem scan_entries_well_shaped (db : unicode_db) (root_dir : str)
    (w : world) (defs : dict details) (k : str) (v : details) :
  result (find_config_definitions db root_dir w) = Returned defs ->
  In (k, v) defs ->
  (k <> [] /\ ~ In 34%N k) /\
  (class v <> [] /\
   forallb (is_word db) (class v) = true /\
   exists stem, class v = stem ++ lit "Options").
Proof.
  intros H Hin.
  destruct (scan_entry_origin _ _ _ H _ _ Hin) as (path & content & _ & D).
  apply declaration_inv in D as (C & S & _).
  split; [now apply section_group_shape in S|].
  apply class_group_shape in C as (stem & E & Hne & Hw).
  repeat split; auto.
  - rewrite E. destruct stem; [congruence|discriminate].
  - now exists stem.
Qed.

Lemma scan_entries_well_shaped_witness :
  (lit "Audio" <> [] /\ ~ In 34%N (lit "Audio")) /\
  (lit "AudioOptions" <> [] /\
   forallb (is_word ascii_db) (lit "AudioOptions") = true /\
   exists stem, lit "AudioOptions" = stem ++ lit "Options").
Proof.
  apply (@scan_entries_well_shaped ascii_db ROOT_DIR w_no_doc
           [(lit "Audio",
             {| class := lit "AudioOptions"; file := lit "./src/Audio.cs" |})]
           (lit "Audio")
           {| class := lit "AudioOptions"; file := lit "./src/Audio.cs" |}).
  - vm_compute. reflexivity.
  - simpl. left. reflexivity.
Defined.

(** ** One file, one entry; the last declaration wins *)

Section Declarations.

Variable db : unicode_db.

Lemma re_search_first_match (p : pattern) (s g : str) :
  re_search p s = Some g -> first_match p s g.
Proof.
  intros H. destruct (re_search_sound _ _ H) as (pre & rest & E & Hm & Hmin).
  exists pre, rest. auto using match_here_sound.
Qed.

Lemma declaration_intro (path content cls sec : str) :
  re_search (CLASS_PATTERN db) content = Some cls ->
  re_search (SECTION_PATTERN db) content = Some sec ->
  declaration db path content = Some (sec, {| class := cls; file := path |}).
Proof. unfold declaration. now intros -> ->. Qed.

(** A key, once in the mapping, stays. *)
Lemma scan_pure_key_kept (k : str) (l : list (str * on_open)) :
  forall defs out final out',
    scan_pure db l defs out = (Returned final, out') ->
    In k (keys defs) -> In k (keys final).
Proof.
  induction l as [|[path o] l IH]; simpl; intros defs out final out' H Hin.
  - inversion H; now subst.
  - destruct o as [content|e|e]; [| |discriminate].
    + eapply IH; [exact H|].
      destruct (declaration db path content) as [[k' v']|]; simpl; auto.
      destruct (in_dec (list_eq_dec N.eq_dec) k' (keys defs)).
      * now rewrite keys_set_in.
      * rewrite keys_set_new by assumption. apply in_or_app. now left.
    + eapply IH; eauto.
Qed.

Lemma key_of_dict_set {V} (d : dict V) (k : str) (v : V) :
  In k (keys (dict_set d k v)).
Proof.
  destruct (in_dec (list_eq_dec N.eq_dec) k (keys d)).
  - now rewrite keys_set_in.
  - rewrite keys_set_new by assumption. apply in_or_app. right. now left.
Qed.

(** A file that declares [k] leaves [k] in the final mapping. *)
Lemma scan_pure_declared_key (l1 l2 : list (str * on_open))
    (path content k : str) (v : details) :
  forall defs out final out',
    scan_pure db (l1 ++ (path, Text content) :: l2) defs out
      = (Returned final, out') ->
    declaration db path content = Some (k, v) ->
    In k (keys final).
Proof.
  intros defs out final out' H D.
  rewrite scan_pure_app in H.
  destruct (scan_pure db l1 defs out) as [[d1|e] o1]; [|discriminate].
  simpl in H. rewrite D in H. simpl in H.
  eapply scan_pure_key_kept; [exact H|apply key_of_dict_set].
Qed.

(** A file in which one of the two patterns is not found declares
    nothing, and scanning it leaves mapping and world as they were. *)
Lemma file_without_both_patterns_adds_nothing (dirpath filename content : str)
    (definitions : dict details) (w : world) :
  re_search (CLASS_PATTERN db) content = None \/
  re_search (SECTION_PATTERN db) content = None ->
  scan_file db dirpath definitions (filename, Text content) w
  = (Returned definitions, w).
Proof.
  intros H. unfold scan_file.
  destruct (endswith filename (lit ".cs")); [|reflexivity].
  unfold bind, open_r, try_except, f_read, ret. cbn.
  destruct H as [-> | ->]; [reflexivity|].
  destruct (re_search (CLASS_PATTERN db) content); reflexivity.
Qed.

End Declarations.

(** C2, as the scanner has it.  When the scan returns, a file with the
    source extension whose text matches both patterns leaves exactly one
    entry under the captured section name; that entry carries this file's
    first type-pattern capture and path unless a later file in traversal
    order declares the same section name; the captures are those of the
    first match of each pattern; and every entry of the mapping comes from
    a file that matches both patterns, so a file matching none or one
    contributes nothing. *)
Theorem matching_file_is_recorded (db : unicode_db) (root_dir : str)
    (w : world) (defs : dict details)
    (earlier later : list (str * on_open)) (path content cls sec : str) :
  result (find_config_definitions db root_dir w) = Returned defs ->
  candidates root_dir (tree w) = earlier ++ (path, Text content) :: later ->
  re_search (CLASS_PATTERN db) content = Some cls ->
  re_search (SECTION_PATTERN db) content = Some sec ->
  count_occ (list_eq_dec N.eq_dec) (keys defs) sec = 1 /\
  ((forall path' content' v',
       In (path', Text content') later ->
       declaration db path' content' <> Some (sec, v')) ->
   dict_get defs sec = Some {| class := cls; file := path |}) /\
  (first_match (CLASS_PATTERN db) content cls /\
   first_match (SECTION_PATTERN db) content sec) /\
  (forall k v, In (k, v) defs ->
     exists content',
       In (file v, Text content') (candidates root_dir (tree w)) /\
       re_search (CLASS_PATTERN db) content' = Some (class v) /\
       re_search (SECTION_PATTERN db) content' = Some k).
Proof.
  intros H Hc C S.
  destruct (scan_returned _ _ _ H) as [out Hs].
  pose proof (@declaration_intro db path _ _ _ C S) as D.
  rewrite Hc in Hs.
  repeat split.
  - apply NoDup_count_occ' with (decA := list_eq_dec N.eq_dec).
    + eapply scan_keys_NoDup; eauto.
    + eapply scan_pure_declared_key; eauto.
  - intros Hlater. eapply scan_pure_last_wins; eauto.
  - now apply re_search_first_match.
  - now apply re_search_first_match.
  - intros k v Hin.
    destruct (scan_entry_origin _ _ _ H _ _ Hin) as (p & c & Hp & Dp).
    apply declaration_inv in Dp as (Cp & Sp & <-).
    exists c. auto.
Qed.

Lemma matching_file_is_recorded_witness :
  count_occ (list_eq_dec N.eq_dec)
    (keys [(lit "Audio",
            {| class := lit "AudioOptions"; file := lit "./src/Audio.cs" |})])
    (lit "Audio") = 1 /\
  ((forall path' content' v',
       In (path', Text content') [] ->
       declaration ascii_db path' content' <> Some (lit "Audio", v')) ->
   dict_get [(lit "Audio",
              {| class := lit "AudioOptions"; file := lit "./src/Audio.cs" |})]
     (lit "Audio")
   = Some {| class := lit "AudioOptions"; file := lit "./src/Audio.cs" |}) /\
  (first_match (CLASS_PATTERN ascii_db) audio_src (lit "AudioOptions") /\
   first_match (SECTION_PATTERN ascii_db) audio_src (lit "Audio")) /\
  (forall k v,
     In (k, v) [(lit "Audio",
                 {| class := lit "AudioOptions"; file := lit "./src/Audio.cs" |})] ->
     exists content',
       In (file v, Text content') (candidates ROOT_DIR (tree w_no_doc)) /\
       re_search (CLASS_PATTERN ascii_db) content' = Some (class v) /\
       re_search (SECTION_PATTERN ascii_db) content' = Some k).
Proof.
  apply (@matching_file_is_recorded ascii_db ROOT_DIR w_no_doc
           [(lit "Audio",
             {| class := lit "AudioOptions"; file := lit "./src/Audio.cs" |})]
           [] [] (lit "./src/Audio.cs") audio_src
           (lit "AudioOptions") (lit "Audio")).
  - vm_compute. reflexivity.
  - vm_compute. reflexivity.
  - vm_compute. reflexivity.
  - vm_compute. reflexivity.
Defined.

(** C2, as the claim words it, fails: of two files that declare the section
    Audio, the earlier one matches both patterns, yet the one entry under
    Audio carries the later file's type name and path. *)
Lemma earlier_file_is_overwritten :
  candidates ROOT_DIR (tree w_duplicate)
  = [(lit "./a/Audio.cs", Text audio_src);
     (lit "./b/Sound.cs", Text sound_src)] /\
  re_search (CLASS_PATTERN ascii_db) audio_src = Some (lit "AudioOptions") /\
  re_search (SECTION_PATTERN ascii_db) audio_src = Some (lit "Audio") /\
  result (find_config_definitions ascii_db ROOT_DIR w_duplicate)
  = Returned [(lit "Audio",
               {| class := lit "SoundOptions"; file := lit "./b/Sound.cs" |})] /\
  dict_get [(lit "Audio",
             {| class := lit "SoundOptions"; file := lit "./b/Sound.cs" |})]
    (lit "Audio")
  <> Some {| class := lit "AudioOptions"; file := lit "./a/Audio.cs" |}.
Proof.
  repeat split; try (vm_compute; reflexivity).
  vm_compute. discriminate.
Qed.

(** C6. When two or more files declare the same section name and the scan
    returns its mapping, the mapping has exactly one entry under that name,
    and its value is that of the file met last in the traversal. *)
Theorem last_declaration_wins (db : unicode_db) (root_dir : str)
    (w : world) (defs : dict details)
    (l1 l2 l3 : list (str * on_open))
    (path1 content1 cls1 path2 content2 cls2 sec : str) :
  result (find_config_definitions db root_dir w) = Returned defs ->
  candidates root_dir (tree w)
  = l1 ++ (path1, Text content1) :: l2 ++ (path2, Text content2) :: l3 ->
  re_search (CLASS_PATTERN db) content1 = Some cls1 ->
  re_search (SECTION_PATTERN db) content1 = Some sec ->
  re_search (CLASS_PATTERN db) content2 = Some cls2 ->
  re_search (SECTION_PATTERN db) content2 = Some sec ->
  (forall path' content' v',
      In (path', Text content') l3 ->
      declaration db path' content' <> Some (sec, v')) ->
  count_occ (list_eq_dec N.eq_dec) (keys defs) sec = 1 /\
  dict_get defs sec = Some {| class := cls2; file := path2 |}.
Proof.
  intros H Hc C1 S1 C2 S2 Hlast.
  destruct (scan_returned _ _ _ H) as [out Hs].
  pose proof (@declaration_intro db path2 _ _ _ C2 S2) as D.
  rewrite Hc in Hs.
  change (l1 ++ (path1, Text content1) :: l2 ++ (path2, Text content2) :: l3)
    with (l1 ++ ((path1, Text content1) :: l2) ++ (path2, Text content2) :: l3)
    in Hs.
  rewrite app_assoc in Hs.
  split.
  - apply NoDup_count_occ' with (decA := list_eq_dec N.eq_dec).
    + eapply scan_keys_NoDup; eauto.
    + eapply scan_pure_declared_key; eauto.
  - eapply scan_pure_last_wins; eauto.
Qed.

Lemma last_declaration_wins_witness :
  count_occ (list_eq_dec N.eq_dec)
    (keys [(lit "Audio",
            {| class := lit "SoundOptions"; file := lit "./b/Sound.cs" |})])
    (lit "Audio") = 1 /\
  dict_get [(lit "Audio",
             {| class := lit "SoundOptions"; file := lit "./b/Sound.cs" |})]
    (lit "Audio")
  = Some {| class := lit "SoundOptions"; file := lit "./b/Sound.cs" |}.
Proof.
  apply (@last_declaration_wins ascii_db ROOT_DIR w_duplicate
           [(lit "Audio",
             {| class := lit "SoundOptions"; file := lit "./b/Sound.cs" |})]
           [] [] []
           (lit "./a/Audio.cs") audio_src (lit "AudioOptions")
           (lit "./b/Sound.cs") sound_src (lit "SoundOptions") (lit "Audio")).
  - vm_compute. reflexivity.
  - vm_compute. reflexivity.
  - vm_compute. reflexivity.
  - vm_compute. reflexivity.
  - vm_compute. reflexivity.
  - vm_compute. reflexivity.
  - simpl. intros path' content' v' [].
Defined.

(** ** Files that cannot be read *)

Section Recovery.

Variable db : unicode_db.

(** A failure of [f.read()] is recovered: when every file opens, the scan
    returns; a file that cannot be read adds nothing but its diagnostic, and
    the files after it are scanned. *)
Lemma read_failures_are_skipped (cands : list (str * on_open)) :
  (forall path e, ~ In (path, OpenFails e) cands) ->
  forall defs out,
    scan_pure db cands defs out
    = (Returned (recorded db cands defs), out ++ diagnostics cands).
Proof.
  induction cands as [|[path o] l IH]; intros Hopen defs out.
  - simpl. now rewrite app_nil_r.
  - assert (Hl : forall p e, ~ In (p, OpenFails e) l)
      by (intros p e Hin; apply (Hopen p e); now right).
    destruct o as [content|e|e].
    + simpl. apply IH, Hl.
    + simpl. rewrite IH by exact Hl. cbn [fst snd]. now rewrite <- app_assoc.
    + exfalso. apply (Hopen path e). now left.
Qed.

(** A failure of [open] is not: the scan ends there with the exception,
    whatever files follow. *)
Lemma open_failure_ends_the_scan (l1 l2 : list (str * on_open))
    (path : str) (e : exn) :
  (forall p e', ~ In (p, OpenFails e') l1) ->
  forall defs out,
    scan_pure db (l1 ++ (path, OpenFails e) :: l2) defs out
    = (Raised e, out ++ diagnostics l1).
Proof.
  intros Hopen defs out.
  rewrite scan_pure_app, read_failures_are_skipped by exact Hopen.
  reflexivity.
Qed.

End Recovery.

(** C3, where the code departs from it.  A source file that cannot be
    opened is not skipped: the exception leaves the scan, no diagnostic is
    printed, and the file listed after it is never scanned. *)
Theorem open_failure_is_not_recovered :
  find_config_definitions ascii_db ROOT_DIR w_unopenable
  = (Raised (Exception (lit "[Errno 13] Permission denied")), w_unopenable) /\
  result (main ascii_db w_unopenable)
  = Raised (Exception (lit "[Errno 13] Permission denied")).
Proof. split; vm_compute; reflexivity. Qed.

(** The sibling path: a file that opens and cannot be decoded is skipped
    with its diagnostic, and the file after it is scanned. *)
Example decode_failure_is_recovered :
  find_config_definitions ascii_db ROOT_DIR w_undecodable
  = (Returned [(lit "Audio",
                {| class := lit "AudioOptions"; file := lit "./Audio.cs" |})],
     set_stdout w_undecodable
       [lit "Skipping ./Binary.cs: invalid start byte"]).
Proof. vm_compute. reflexivity. Qed.

(** ** No documentation file *)

Lemma missing_items_no_doc (code_configs : dict details) :
  missing_items_of code_configs EmptyList
  = map (fun e => format_item (fst e) (snd e)) code_configs.
Proof.
  rewrite missing_items_filter. f_equal.
  induction code_configs as [|e l IH]; simpl; [reflexivity|].
  f_equal. exact IH.
Qed.

Lemma missing_items_empty_text (code_configs : dict details) :
  (forall k v, In (k, v) code_configs -> k <> []) ->
  missing_items_of code_configs (Content [])
  = missing_items_of code_configs EmptyList.
Proof.
  intros Hne. rewrite !missing_items_filter. f_equal.
  induction code_configs as [|[k v] l IH]; [reflexivity|].
  cbn [filter fst py_in].
  rewrite str_in_empty_text by (eapply Hne; now left). cbn [negb].
  f_equal. apply IH. intros k' v' Hin. eapply Hne. right. exact Hin.
Qed.

(** C4. When the documentation file does not exist, the run goes on as if
    the documentation were the empty string: every scanned definition is
    reported as a gap, and when there is at least one the report is written
    with one checklist line for each; with exactly one definition, exactly
    one gap is reported and the report has one checklist line. *)
Theorem no_doc_file_reports_everything (db : unicode_db) (w : world)
    (code_configs : dict details) :
  dict_get (files w) DOC_FILE = None ->
  result (find_config_definitions db ROOT_DIR w) = Returned code_configs ->
  get_documented_sections DOC_FILE w = (Returned EmptyList, w) /\
  missing_items_of code_configs EmptyList
  = missing_items_of code_configs (Content []) /\
  result (main db w)
  = Returned (map (fun e => format_item (fst e) (snd e)) code_configs) /\
  (code_configs <> [] ->
   dict_get (files (snd (main db w))) REPORT_FILE
   = Some (Text (report_text
                   (map (fun e => format_item (fst e) (snd e)) code_configs)))) /\
  (forall section d,
     code_configs = [(section, d)] ->
     result (main db w) = Returned [format_item section d] /\
     dict_get (files (snd (main db w))) REPORT_FILE
     = Some (Text ((lit "### Missing Configuration Sections in " ++ DOC_FILE
                      ++ NL ++ NL)
                   ++ (lit "The following configuration sections were found in the code but are missing from documentation:" ++ NL ++ NL)
                   ++ lit "- [ ] " ++ format_item section d ++ NL))).
Proof.
  intros Hdoc Hscan.
  assert (Hload : doc_loaded w = Returned EmptyList)
    by (unfold doc_loaded; now rewrite Hdoc).
  destruct (main_spec db w) as [_ Hmain].
  rewrite Hscan, Hload in Hmain. cbv zeta in Hmain.
  rewrite missing_items_no_doc in Hmain. destruct Hmain as [Hres Hfiles].
  assert (Hwritten : code_configs <> [] ->
    dict_get (files (snd (main db w))) REPORT_FILE
    = Some (Text (report_text
                    (map (fun e => format_item (fst e) (snd e)) code_configs)))).
  { intros Hne. rewrite Hfiles.
    destruct code_configs as [|e l]; [congruence|].
    cbn [map]. apply dict_get_set_same. }
  repeat split.
  - rewrite get_documented_sections_spec. now rewrite Hload.
  - symmetry. apply missing_items_empty_text.
    eapply scan_keys_nonempty; eauto.
  - exact Hres.
  - exact Hwritten.
  - subst code_configs. exact Hres.
  - subst code_configs. rewrite Hwritten by discriminate.
    unfold report_text. cbn [map concat fst snd]. now rewrite app_nil_r.
Qed.

Lemma no_doc_file_reports_everything_witness :
  result (main ascii_db w_no_doc)
  = Returned [format_item (lit "Audio")
                {| class := lit "AudioOptions"; file := lit "./src/Audio.cs" |}] /\
  dict_get (files (snd (main ascii_db w_no_doc))) REPORT_FILE
  = Some (Text ((lit "### Missing Configuration Sections in " ++ DOC_FILE
                   ++ NL ++ NL)
                ++ (lit "The following configuration sections were found in the code but are missing from documentation:" ++ NL ++ NL)
                ++ lit "- [ ] "
                ++ format_item (lit "Audio")
                     {| class := lit "AudioOptions";
                        file := lit "./src/Audio.cs" |}
                ++ NL)).
Proof.
  apply (@no_doc_file_reports_everything ascii_db w_no_doc
           [(lit "Audio",
             {| class := lit "AudioOptions"; file := lit "./src/Audio.cs" |})]).
  - vm_compute. reflexivity.
  - vm_compute. reflexivity.
  - reflexivity.
Defined.

(** ** The report file *)

Lemma REPORT_is_not_DOC : REPORT_FILE <> DOC_FILE.
Proof. vm_compute. discriminate. Qed.

(** The run touches no file but the report. *)
Lemma main_frame (db : unicode_db) (w : world) (name : str) :
  name <> REPORT_FILE ->
  dict_get (files (snd (main db w))) name = dict_get (files w) name.
Proof.
  intros Hne. main_cases db w; try reflexivity.
  destruct (missing_items_of code_configs d); [reflexivity|].
  apply dict_get_set_other. congruence.
Qed.

(** A run that finds gaps leaves the checklist under the report's name;
    any other run leaves every file as it was. *)
Lemma main_writes_report (db : unicode_db) (w : world) :
  match result (main db w) with
  | Returned (item :: items) =>
      dict_get (files (snd (main db w))) REPORT_FILE
      = Some (Text (report_text (item :: items)))
  | _ => files (snd (main db w)) = files w
  end.
Proof.
  main_cases db w; try reflexivity.
  destruct (missing_items_of code_configs d); [reflexivity|].
  apply dict_get_set_same.
Qed.

(** What the writes of [main] add up to is the specified layout. *)
Lemma report_text_is_specified (gaps : list (str * details)) :
  report_text (map (fun e => format_item (fst e) (snd e)) gaps)
  = unlines (spec_report_lines DOC_FILE gaps).
Proof.
  unfold report_text, unlines, spec_report_lines.
  rewrite map_app, concat_app. cbn [map concat]. rewrite app_nil_l.
  rewrite <- !app_assoc, !app_nil_l. do 7 f_equal.
  rewrite !map_map. f_equal.
Qed.

(** C5. The report file is written if and only if the run finds a gap,
    a gap being a definition of the scanned mapping whose section name is
    not in the loaded documentation.  When there is one, the file under the
    fixed name holds the checklist, one unchecked item per gap, whatever it
    held before; when there is none, when the scan or the loading raised,
    and when no file has the source extension, no file changes; and no run
    changes a file of another name. *)
Theorem report_written_iff_gaps (db : unicode_db) (w : world) :
  match result (find_config_definitions db ROOT_DIR w),
        result (get_documented_sections DOC_FILE w) with
  | Returned code_configs, Returned d =>
      match filter (fun e => negb (py_in (fst e) d)) code_configs with
      | [] => files (snd (main db w)) = files w
      | g :: gaps =>
          result (main db w)
          = Returned (map (fun e => format_item (fst e) (snd e)) (g :: gaps)) /\
          dict_get (files (snd (main db w))) REPORT_FILE
          = Some (Text (unlines (spec_report_lines DOC_FILE (g :: gaps))))
      end
  | _, _ => files (snd (main db w)) = files w
  end /\
  (forall name,
      name <> REPORT_FILE ->
      dict_get (files (snd (main db w))) name = dict_get (files w) name) /\
  (candidates ROOT_DIR (tree w) = [] ->
   result (find_config_definitions db ROOT_DIR w) = Returned [] /\
   files (snd (main db w)) = files w).
Proof.
  assert (Hmain := main_spec db w). destruct Hmain as [_ Hmain].
  split; [|split].
  - rewrite get_documented_sections_spec. unfold result at 2. cbn [fst].
    destruct (result (find_config_definitions db ROOT_DIR w))
      as [code_configs|e]; [|apply Hmain].
    destruct (doc_loaded w) as [d|e]; [|apply Hmain].
    cbv zeta in Hmain. rewrite missing_items_filter in Hmain.
    destruct (filter (fun e => negb (py_in (fst e) d)) code_configs)
      as [|g gaps]; [apply Hmain|].
    destruct Hmain as [Hres Hfiles]. split; [exact Hres|].
    rewrite Hfiles, <- report_text_is_specified. cbn [map].
    apply dict_get_set_same.
  - intros name. apply main_frame.
  - intros Hnone. rewrite scan_result_tree in *. rewrite Hnone in *.
    cbn [scan_pure fst] in *. split; [reflexivity|].
    destruct (doc_loaded w) as [d|e]; apply Hmain.
Qed.

(** Scenario 5 and the frame of scenario 1: no gap, the old report stays. *)
Example old_report_is_left_alone :
  result (main ascii_db w_no_sources) = Returned [] /\
  files (snd (main ascii_db w_no_sources)) = files w_no_sources /\
  result (main ascii_db w_documented) = Returned [] /\
  files (snd (main ascii_db w_documented)) = files w_documented.
Proof. repeat split; vm_compute; reflexivity. Qed.

(** Scenario 2: the documentation says Audi, the section Audio is a gap,
    and the old report is replaced. *)
Example old_report_is_overwritten :
  result (main ascii_db w_audi)
  = Returned [lit "**Audio** (Class: `AudioOptions` in `./src/Audio.cs`)"] /\
  dict_get (files w_audi) REPORT_FILE = Some (Text (lit "old report")) /\
  dict_get (files (snd (main ascii_db w_audi))) REPORT_FILE
  = Some (Text (report_text
                  [lit "**Audio** (Class: `AudioOptions` in `./src/Audio.cs`)"])).
Proof. repeat split; vm_compute; reflexivity. Qed.

(** ** Running twice *)

(** The run reads the tree and the documentation file, nothing else. *)
Lemma main_depends_on (db : unicode_db) (w w2 : world) :
  candidates ROOT_DIR (tree w2) = candidates ROOT_DIR (tree w) ->
  dict_get (files w2) DOC_FILE = dict_get (files w) DOC_FILE ->
  result (main db w2) = result (main db w) /\
  (forall item items,
      result (main db w) = Returned (item :: items) ->
      dict_get (files (snd (main db w2))) REPORT_FILE
      = dict_get (files (snd (main db w))) REPORT_FILE) /\
  (result (main db w) = Returned [] \/ (exists e, result (main db w) = Raised e) ->
   files (snd (main db w2)) = files w2 /\ files (snd (main db w)) = files w).
Proof.
  intros Hc Hd.
  destruct (main_run db w) as [out ->]. destruct (main_run db w2) as [out2 ->].
  unfold result. rewrite Hc.
  assert (Hl : doc_loaded w2 = doc_loaded w) by (unfold doc_loaded; now rewrite Hd).
  rewrite Hl.
  destruct (fst (scan_pure db (candidates ROOT_DIR (tree w)) [] []))
    as [code_configs|e].
  - destruct (doc_loaded w) as [d|e]; cbv zeta; cbn [fst snd files].
    + destruct (missing_items_of code_configs d) as [|i l].
      * repeat split; try reflexivity. intros ? ? H. discriminate.
      * repeat split; try reflexivity.
        -- intros _ _ _. now rewrite !dict_get_set_same.
        -- destruct H as [H|[e H]]; discriminate.
        -- destruct H as [H|[e H]]; discriminate.
    + repeat split; try reflexivity. intros ? ? H. discriminate.
  - cbn [fst snd]. repeat split; try reflexivity. intros ? ? H. discriminate.
Qed.

(** A file of the working directory that does not end in [.cs], the
    report among them, is no business of the scan wherever it is listed. *)
Lemma non_source_file_is_no_candidate (root_dir name : str) (o : on_open)
    (l1 l2 : list entry) :
  endswith name (lit ".cs") = false ->
  candidates root_dir (l1 ++ File name o :: l2) = candidates root_dir (l1 ++ l2).
Proof.
  intros Hext. unfold candidates, os_walk. cbn [flat_map]. f_equal.
  - unfold filenames. rewrite !flat_map_app. cbn [flat_map].
    rewrite !filter_app. cbn [filter fst app]. now rewrite Hext.
  - f_equal. rewrite !flat_map_app. reflexivity.
Qed.

Lemma REPORT_is_no_source : endswith REPORT_FILE (lit ".cs") = false.
Proof. reflexivity. Qed.

(** C7. Running the whole pipeline a second time, with the source files
    the walk finds and the documentation file unchanged and the report as
    the first run left it, yields the same gap list, item by item, and the
    same report-file content. *)
Theorem rerun_is_identical (db : unicode_db) (w w2 : world) :
  candidates ROOT_DIR (tree w2) = candidates ROOT_DIR (tree w) ->
  dict_get (files w2) DOC_FILE = dict_get (files w) DOC_FILE ->
  dict_get (files w2) REPORT_FILE
  = dict_get (files (snd (main db w))) REPORT_FILE ->
  result (main db w2) = result (main db w) /\
  dict_get (files (snd (main db w2))) REPORT_FILE
  = dict_get (files (snd (main db w))) REPORT_FILE.
Proof.
  intros Hc Hd Hr.
  destruct (main_depends_on db w w2 Hc Hd) as (Hres & Hgap & Hnogap).
  split; [exact Hres|].
  destruct (result (main db w)) as [[|item items]|e] eqn:E.
  - destruct Hnogap as [-> _]; [now left|exact Hr].
  - eapply Hgap. reflexivity.
  - destruct Hnogap as [-> _]; [right; now exists e|exact Hr].
Qed.

Lemma rerun_is_identical_witness :
  result (main ascii_db (snd (main ascii_db w_audi)))
  = result (main ascii_db w_audi) /\
  dict_get (files (snd (main ascii_db (snd (main ascii_db w_audi)))))
    REPORT_FILE
  = dict_get (files (snd (main ascii_db w_audi))) REPORT_FILE.
Proof.
  apply (@rerun_is_identical ascii_db w_audi (snd (main ascii_db w_audi))).
  - vm_compute. reflexivity.
  - vm_compute. reflexivity.
  - reflexivity.
Defined.

(** The second of two runs in a row starts from the same tree and the
    same documentation file; and the walk finds the same source files when
    the report the first run wrote has joined the listing. *)
Lemma second_run_sees_the_same (db : unicode_db) (w : world) :
  tree (snd (main db w)) = tree w /\
  dict_get (files (snd (main db w))) DOC_FILE = dict_get (files w) DOC_FILE /\
  forall l1 l2 o,
    tree w = l1 ++ l2 ->
    candidates ROOT_DIR (l1 ++ File REPORT_FILE o :: l2)
    = candidates ROOT_DIR (tree w).
Proof.
  split; [|split].
  - apply main_spec.
  - apply main_frame. intros E. symmetry in E. now apply REPORT_is_not_DOC.
  - intros l1 l2 o ->. apply non_source_file_is_no_candidate.
    apply REPORT_is_no_source.
Qed.

(** ** The format of the report *)

(** C8. When gaps exist, the report file written has exactly the specified
    layout: the header line naming the documentation file, a blank line,
    the fixed sentence, a blank line, and for each gap one line naming the
    section, its declared type name and its source path. *)
Theorem report_has_specified_format (db : unicode_db) (w : world)
    (code_configs : dict details) (d : doc_content) :
  result (find_config_definitions db ROOT_DIR w) = Returned code_configs ->
  doc_loaded w = Returned d ->
  filter (fun e => negb (py_in (fst e) d)) code_configs <> [] ->
  dict_get (files (snd (main db w))) REPORT_FILE
  = Some (Text (unlines
                  (spec_report_lines DOC_FILE
                     (filter (fun e => negb (py_in (fst e) d)) code_configs)))).
Proof.
  intros Hscan Hload Hgaps.
  destruct (main_spec db w) as [_ Hmain].
  rewrite Hscan, Hload in Hmain. cbv zeta in Hmain.
  destruct Hmain as [_ Hfiles]. rewrite Hfiles.
  rewrite missing_items_filter.
  destruct (filter (fun e => negb (py_in (fst e) d)) code_configs)
    as [|g gaps] eqn:E; [congruence|].
  rewrite <- report_text_is_specified.
  cbn [map]. apply dict_get_set_same.
Qed.

Lemma report_has_specified_format_witness :
  dict_get (files (snd (main ascii_db w_audi))) REPORT_FILE
  = Some (Text (unlines
                  (spec_report_lines DOC_FILE
                     (filter
                        (fun e => negb (py_in (fst e) (Content (lit "Audi"))))
                        [(lit "Audio",
                          {| class := lit "AudioOptions";
                             file := lit "./src/Audio.cs" |})])))).
Proof.
  apply (@report_has_specified_format ascii_db w_audi
           [(lit "Audio",
             {| class := lit "AudioOptions"; file := lit "./src/Audio.cs" |})]
           (Content (lit "Audi"))).
  - vm_compute. reflexivity.
  - vm_compute. reflexivity.
  - vm_compute. discriminate.
Defined.

(** The report of scenario 2, character by character. *)
Example report_of_w_audi :
  dict_get (files (snd (main ascii_db w_audi))) REPORT_FILE
  = Some (Text
      (lit "### Missing Configuration Sections in SYSTEMCONFIGURATION.md" ++ NL
       ++ NL
       ++ lit "The following configuration sections were found in the code but are missing from documentation:" ++ NL
       ++ NL
       ++ lit "- [ ] **Audio** (Class: `AudioOptions` in `./src/Audio.cs`)" ++ NL)).
Proof. vm_compute. reflexivity. Qed.

(** ** The fixed names *)

(** C10. The documentation file name is SYSTEMCONFIGURATION.md, a relative
    name looked up in the working directory; the scan starts at the working
    directory, written as a single dot; and the report goes to
    config_audit_report.md, a relative name in the working directory and
    the only file the run writes. *)
Theorem fixed_names :
  (ROOT_DIR = lit "." /\
   DOC_FILE = lit "SYSTEMCONFIGURATION.md" /\
   REPORT_FILE = lit "config_audit_report.md") /\
  (startswith (lit "SYSTEMCONFIGURATION.md") (lit "/") = false /\
   startswith (lit "config_audit_report.md") (lit "/") = false) /\
  (forall db w,
      get_documented_sections DOC_FILE w
      = (match dict_get (files w) (lit "SYSTEMCONFIGURATION.md") with
         | None => Returned EmptyList
         | Some (Text content) => Returned (Content content)
         | Some (ReadFails e) => Raised e
         | Some (OpenFails e) => Raised e
         end, w) /\
      match result (find_config_definitions db (lit ".") w),
            doc_loaded w with
      | Returned code_configs, Returned d =>
          result (main db w) = Returned (missing_items_of code_configs d)
      | Raised e, _ => result (main db w) = Raised e
      | Returned _, Raised e => result (main db w) = Raised e
      end) /\
  (forall db w name,
      name <> lit "config_audit_report.md" ->
      dict_get (files (snd (main db w))) name = dict_get (files w) name) /\
  (forall db w item items,
      result (main db w) = Returned (item :: items) ->
      exists text,
        dict_get (files (snd (main db w))) (lit "config_audit_report.md")
        = Some (Text text)).
Proof.
  split; [repeat split|]. split; [repeat split|]. split; [|split].
  - intros db w. split.
    + apply get_documented_sections_spec.
    + destruct (main_spec db w) as [_ Hmain].
      change (lit ".") with ROOT_DIR.
      destruct (result (find_config_definitions db ROOT_DIR w));
        [|apply Hmain].
      destruct (doc_loaded w); apply Hmain.
  - intros db w name. apply main_frame.
  - intros db w item items H.
    pose proof (main_writes_report db w) as W. rewrite H in W.
    eexists. exact W.
Qed.

(** * Further properties of the script *)

(** ** The scanner: what it recovers from, what it prints, what it leaves *)

Lemma opens_all (l : list (str * on_open)) :
  forallb opens l = true -> forall path e, ~ In (path, OpenFails e) l.
Proof.
  intros H path e Hin. rewrite forallb_forall in H.
  specialize (H _ Hin). discriminate.
Qed.

Lemma diagnostics_app (l1 l2 : list (str * on_open)) :
  diagnostics (l1 ++ l2) = diagnostics l1 ++ diagnostics l2.
Proof. apply flat_map_app. Qed.

(** X1. When every file with the source extension can be opened, the scan
    returns whatever else goes wrong: a file whose reading or decoding
    fails adds nothing to the mapping, the files after it are still
    scanned, and exactly one Skipping line per such file is printed, in
    traversal order, and nothing else. *)
Theorem unreadable_files_are_skipped (db : unicode_db) (root_dir : str)
    (w : world) :
  forallb opens (candidates root_dir (tree w)) = true ->
  find_config_definitions db root_dir w
  = (Returned (recorded db (candidates root_dir (tree w)) []),
     set_stdout w (stdout w ++ diagnostics (candidates root_dir (tree w)))).
Proof.
  intros H. rewrite scan_as_function.
  rewrite read_failures_are_skipped by (apply opens_all, H).
  reflexivity.
Qed.

Lemma unreadable_files_are_skipped_witness :
  find_config_definitions ascii_db ROOT_DIR w_undecodable
  = (Returned (recorded ascii_db (candidates ROOT_DIR (tree w_undecodable)) []),
     set_stdout w_undecodable
       (stdout w_undecodable
          ++ diagnostics (candidates ROOT_DIR (tree w_undecodable)))).
Proof.
  apply (@unreadable_files_are_skipped ascii_db ROOT_DIR w_undecodable).
  vm_compute. reflexivity.
Defined.

(** X2. The first file with the source extension that cannot be opened
    ends the scan with the exception [open] raised: the diagnostics of the
    unreadable files before it have been printed, no file after it is
    looked at, and the run as a whole ends with the same exception and
    writes no file. *)
Theorem first_unopenable_file_ends_the_scan (db : unicode_db) (w : world)
    (l1 l2 : list (str * on_open)) (path : str) (e : exn) :
  candidates ROOT_DIR (tree w) = l1 ++ (path, OpenFails e) :: l2 ->
  forallb opens l1 = true ->
  find_config_definitions db ROOT_DIR w
  = (Raised e, set_stdout w (stdout w ++ diagnostics l1)) /\
  result (main db w) = Raised e /\
  files (snd (main db w)) = files w.
Proof.
  intros Hc Hopen.
  assert (Hs : forall out,
    scan_pure db (candidates ROOT_DIR (tree w)) [] out
    = (Raised e, out ++ diagnostics l1)).
  { intros out. rewrite Hc.
    apply open_failure_ends_the_scan, opens_all, Hopen. }
  split.
  - rewrite scan_as_function, Hs. reflexivity.
  - destruct (main_spec db w) as [_ Hmain].
    rewrite scan_result_tree, Hs in Hmain. exact Hmain.
Qed.

Lemma first_unopenable_file_ends_the_scan_witness :
  find_config_definitions ascii_db ROOT_DIR w_unopenable
  = (Raised (Exception (lit "[Errno 13] Permission denied")),
     set_stdout w_unopenable (stdout w_unopenable ++ diagnostics [])) /\
  result (main ascii_db w_unopenable)
  = Raised (Exception (lit "[Errno 13] Permission denied")) /\
  files (snd (main ascii_db w_unopenable)) = files w_unopenable.
Proof.
  apply (@first_unopenable_file_ends_the_scan ascii_db w_unopenable
           [] [(lit "./Audio.cs", Text audio_src)] (lit "./Locked.cs")
           (Exception (lit "[Errno 13] Permission denied"))).
  - vm_compute. reflexivity.
  - reflexivity.
Defined.

Lemma scan_pure_prints_diagnostics (db : unicode_db)
    (l : list (str * on_open)) :
  forall defs out,
    exists n, snd (scan_pure db l defs out) = out ++ diagnostics (firstn n l).
Proof.
  induction l as [|[path o] l IH]; intros defs out.
  - exists 0. simpl. now rewrite app_nil_r.
  - destruct o as [content|e|e].
    + destruct (IH (record defs (declaration db path content)) out) as [n Hn].
      exists (S n). simpl. exact Hn.
    + destruct (IH defs
        (out ++ [lit "Skipping " ++ path ++ lit ": " ++ message e])) as [n Hn].
      exists (S n). cbn [scan_pure firstn]. rewrite Hn.
      change ((path, ReadFails e) :: firstn n l)
        with ([(path, ReadFails e)] ++ firstn n l).
      rewrite diagnostics_app, <- app_assoc. reflexivity.
    + exists 0. simpl. now rewrite app_nil_r.
Qed.

(** X3. Whatever the tree, the scanner changes no file and does not touch
    the tree; all it adds to the standard output are the Skipping lines of
    the unreadable files among those it got to; and its outcome depends on
    nothing but the tree. *)
Theorem scan_only_prints_diagnostics (db : unicode_db) (root_dir : str)
    (w : world) :
  tree (snd (find_config_definitions db root_dir w)) = tree w /\
  files (snd (find_config_definitions db root_dir w)) = files w /\
  (exists n,
      stdout (snd (find_config_definitions db root_dir w))
      = stdout w ++ diagnostics (firstn n (candidates root_dir (tree w)))) /\
  (forall w2,
      tree w2 = tree w ->
      result (find_config_definitions db root_dir w2)
      = result (find_config_definitions db root_dir w)).
Proof.
  assert (Hsnd : exists n,
    snd (find_config_definitions db root_dir w)
    = set_stdout w
        (stdout w ++ diagnostics (firstn n (candidates root_dir (tree w))))).
  { rewrite scan_as_function.
    destruct (scan_pure_prints_diagnostics db (candidates root_dir (tree w))
                [] (stdout w)) as [n Hn].
    destruct (scan_pure db (candidates root_dir (tree w)) [] (stdout w))
      as [r out].
    exists n. cbn [snd] in *. now rewrite Hn. }
  destruct Hsnd as [n ->]. cbn [tree files stdout set_stdout].
  repeat split.
  - now exists n.
  - intros w2 Ht. rewrite !scan_result_tree, Ht. reflexivity.
Qed.

(** ** The traversal *)

(** Induction on a tree: a property of a directory may rely on the
    property of each of its entries. *)
Lemma entry_induction (P : entry -> Prop) :
  (forall name o, P (File name o)) ->
  (forall name children, Forall P children -> P (Dir name children)) ->
  forall e, P e.
Proof.
  intros P_file P_dir. fix IH 1. intros [name o|name children].
  - apply P_file.
  - apply P_dir. induction children as [|x l IHl]; constructor.
    + apply IH.
    + exact IHl.
Qed.

Lemma tree_induction (Q : list entry -> Prop) :
  (forall es,
      (forall d children, In (Dir d children) es -> Q children) -> Q es) ->
  forall es, Q es.
Proof.
  intros step.
  assert (H : forall e, match e with
                        | Dir _ children => Q children
                        | File _ _ => True
                        end).
  { apply entry_induction; [exact (fun _ _ => I)|].
    intros name children Hall. apply step.
    intros d ch Hin. rewrite Forall_forall in Hall.
    exact (Hall _ Hin). }
  intros es. apply step. intros d ch _. exact (H (Dir d ch)).
Qed.

Lemma flat_map_nested {A B C} (f : A -> list B) (g : B -> list C)
    (l : list A) :
  flat_map g (flat_map f l) = flat_map (fun a => flat_map g (f a)) l.
Proof.
  induction l as [|a l IH]; simpl; [reflexivity|].
  now rewrite flat_map_app, IH.
Qed.

Lemma flat_map_agree {A B} (f g : A -> list B) (l : list A) :
  (forall a, In a l -> f a = g a) -> flat_map f l = flat_map g l.
Proof.
  induction l as [|a l IH]; intros H; simpl; [reflexivity|].
  rewrite (H a) by now left. f_equal. apply IH. intros b Hb. apply H. now right.
Qed.

(** The walk, seen from the candidates: the source files of the directory
    itself, then what each entry brings, in listing order. *)
Lemma candidates_eq (top : str) (es : list entry) :
  candidates top es
  = source_files top (filenames es) ++ flat_map (below top) es.
Proof.
  unfold candidates at 1, os_walk. cbn [flat_map]. f_equal.
  rewrite flat_map_nested. apply flat_map_ext. intros [name o|d children].
  - reflexivity.
  - reflexivity.
Qed.

Lemma in_filenames (es : list entry) (name : str) (o : on_open) :
  In (name, o) (filenames es) <-> In (File name o) es.
Proof.
  unfold filenames. rewrite in_flat_map. split.
  - intros ([n o'|d ch] & Hin & H); simpl in H; [|tauto].
    destruct H as [H|[]]. inversion H; subst. exact Hin.
  - intros Hin. exists (File name o). split; [exact Hin|now left].
Qed.

Lemma in_source_files (dirpath : str) (fns : list (str * on_open))
    (path : str) (o : on_open) :
  In (path, o) (source_files dirpath fns) <->
  exists name,
    In (name, o) fns /\ endswith name (lit ".cs") = true /\
    path = path_join dirpath name.
Proof.
  unfold source_files. rewrite in_map_iff. split.
  - intros ([name o'] & E & Hin). apply filter_In in Hin as [Hin Hext].
    simpl in *. inversion E; subst. exists name. auto.
  - intros (name & Hin & Hext & ->). exists (name, o). split; [reflexivity|].
    apply filter_In. auto.
Qed.

Lemma candidate_is_located (es : list entry) :
  forall top path o,
    In (path, o) (candidates top es) ->
    exists name,
      located top es path name o /\ endswith name (lit ".cs") = true.
Proof.
  induction es as [es IH] using tree_induction. intros top path o Hin.
  rewrite candidates_eq in Hin. apply in_app_or in Hin as [Hin|Hin].
  - apply in_source_files in Hin as (name & Hin & Hext & ->).
    exists name. split; [|exact Hext].
    apply located_here. now apply in_filenames.
  - apply in_flat_map in Hin as ([n o'|d children] & He & Hin);
      simpl in Hin; [tauto|].
    destruct (IH _ _ He _ _ _ Hin) as (name & Hl & Hext).
    exists name. split; [|exact Hext].
    eapply located_below; eauto.
Qed.

Lemma located_is_candidate (top : str) (es : list entry) (path name : str)
    (o : on_open) :
  located top es path name o ->
  endswith name (lit ".cs") = true ->
  In (path, o) (candidates top es).
Proof.
  induction 1 as [top es name o Hin|top es d children path name o Hin Hl IH];
    intros Hext; rewrite candidates_eq; apply in_or_app.
  - left. apply in_source_files. exists name.
    split; [now apply in_filenames|auto].
  - right. apply in_flat_map. exists (Dir d children). split; [exact Hin|].
    simpl. now apply IH.
Qed.

(** The candidates are the files of the tree, at whatever depth, whose
    name ends in the source extension. *)
Lemma candidates_are_the_source_files (root_dir : str) (es : list entry)
    (path : str) (o : on_open) :
  In (path, o) (candidates root_dir es) <->
  exists name,
    located root_dir es path name o /\ endswith name (lit ".cs") = true.
Proof.
  split.
  - apply candidate_is_located.
  - intros (name & Hl & Hext). eapply located_is_candidate; eauto.
Qed.

Lemma in_diagnostics (cands : list (str * on_open)) (line : str) :
  In line (diagnostics cands) <->
  exists path e,
    In (path, ReadFails e) cands /\
    line = lit "Skipping " ++ path ++ lit ": " ++ message e.
Proof.
  unfold diagnostics. rewrite in_flat_map. split.
  - intros ([path o] & Hin & H). destruct o as [c|e|e]; simpl in H; try tauto.
    destruct H as [<-|[]]. exists path, e. auto.
  - intros (path & e & Hin & ->). exists (path, ReadFails e).
    split; [exact Hin|now left].
Qed.

(** X4. A scan that returns has reached every file of the tree, at
    whatever depth, whose name ends in the source extension, and no other
    file.  Every entry of its mapping comes from such a file, read under
    the path joined from the scan root down to it; every section name that
    such a file declares next to a type declaration is a key of the
    mapping; and the lines the scan printed are the Skipping lines of
    exactly those such files that could not be read. *)
Theorem scan_reaches_every_depth (db : unicode_db) (root_dir : str)
    (w : world) (defs : dict details) (k : str) :
  result (find_config_definitions db root_dir w) = Returned defs ->
  (forall v,
      In (k, v) defs ->
      exists name content,
        located root_dir (tree w) (file v) name (Text content) /\
        endswith name (lit ".cs") = true /\
        re_search (CLASS_PATTERN db) content = Some (class v) /\
        re_search (SECTION_PATTERN db) content = Some k) /\
  (forall path name content cls,
      located root_dir (tree w) path name (Text content) ->
      endswith name (lit ".cs") = true ->
      re_search (CLASS_PATTERN db) content = Some cls ->
      re_search (SECTION_PATTERN db) content = Some k ->
      In k (keys defs)) /\
  (exists printed,
      stdout (snd (find_config_definitions db root_dir w))
      = stdout w ++ printed /\
      forall line,
        In line printed <->
        exists path name e,
          located root_dir (tree w) path name (ReadFails e) /\
          endswith name (lit ".cs") = true /\
          line = lit "Skipping " ++ path ++ lit ": " ++ message e).
Proof.
  intros H. destruct (scan_returned _ _ _ H) as [out Hs].
  split; [|split].
  - intros v Hin.
    destruct (scan_entry_origin _ _ _ H _ _ Hin) as (path & content & Hc & D).
    apply declaration_inv in D as (C & S & <-).
    apply candidate_is_located in Hc as (name & Hl & Hext).
    exists name, content. auto.
  - intros path name content cls Hl Hext C S.
    pose proof (located_is_candidate Hl Hext) as Hin.
    apply in_split in Hin as (l1 & l2 & Hc). rewrite Hc in Hs.
    pose proof (@declaration_intro db path _ _ _ C S) as D.
    eapply scan_pure_declared_key; eauto.
  - exists (diagnostics (candidates root_dir (tree w))). split.
    + rewrite scan_as_function.
      rewrite read_failures_are_skipped
        by (eapply scan_pure_returned_opens; eauto).
      reflexivity.
    + intros line. rewrite in_diagnostics. split.
      * intros (path & e & Hin & ->).
        apply candidate_is_located in Hin as (name & Hl & Hext).
        exists path, name, e. auto.
      * intros (path & name & e & Hl & Hext & ->).
        exists path, e. split; [|reflexivity].
        eapply located_is_candidate; eauto.
Qed.

Lemma scan_reaches_every_depth_witness :
  (forall v,
      In (lit "Audio", v)
        [(lit "Audio",
          {| class := lit "AudioOptions"; file := lit "./src/Audio.cs" |})] ->
      exists name content,
        located ROOT_DIR (tree w_no_doc) (file v) name (Text content) /\
        endswith name (lit ".cs") = true /\
        re_search (CLASS_PATTERN ascii_db) content = Some (class v) /\
        re_search (SECTION_PATTERN ascii_db) content = Some (lit "Audio")) /\
  (forall path name content cls,
      located ROOT_DIR (tree w_no_doc) path name (Text content) ->
      endswith name (lit ".cs") = true ->
      re_search (CLASS_PATTERN ascii_db) content = Some cls ->
      re_search (SECTION_PATTERN ascii_db) content = Some (lit "Audio") ->
      In (lit "Audio")
        (keys [(lit "Audio",
                {| class := lit "AudioOptions";
                   file := lit "./src/Audio.cs" |})])) /\
  (exists printed,
      stdout (snd (find_config_definitions ascii_db ROOT_DIR w_no_doc))
      = stdout w_no_doc ++ printed /\
      forall line,
        In line printed <->
        exists path name e,
          located ROOT_DIR (tree w_no_doc) path name (ReadFails e) /\
          endswith name (lit ".cs") = true /\
          line = lit "Skipping " ++ path ++ lit ": " ++ message e).
Proof.
  apply (@scan_reaches_every_depth ascii_db ROOT_DIR w_no_doc
           [(lit "Audio",
             {| class := lit "AudioOptions"; file := lit "./src/Audio.cs" |})]
           (lit "Audio")).
  vm_compute. reflexivity.
Defined.

Lemma filenames_app (l1 l2 : list entry) :
  filenames (l1 ++ l2) = filenames l1 ++ filenames l2.
Proof. apply flat_map_app. Qed.

Lemma source_files_app (dirpath : str) (l1 l2 : list (str * on_open)) :
  source_files dirpath (l1 ++ l2)
  = source_files dirpath l1 ++ source_files dirpath l2.
Proof. unfold source_files. now rewrite filter_app, map_app. Qed.

Lemma source_files_prune (top : str) (es : list entry) :
  source_files top (filenames (prune es)) = source_files top (filenames es).
Proof.
  induction es as [|[name o|d children] es IH]; [reflexivity| |].
  - change (prune (File name o :: es))
      with (prune_entry (File name o) ++ prune es).
    change (File name o :: es) with ([File name o] ++ es).
    rewrite !filenames_app, !source_files_app, IH. f_equal.
    cbn [prune_entry]. destruct (endswith name (lit ".cs")) eqn:E.
    + reflexivity.
    + unfold source_files. cbn. now rewrite E.
  - exact IH.
Qed.

Lemma candidates_prune (es : list entry) :
  forall top, candidates top (prune es) = candidates top es.
Proof.
  induction es as [es IH] using tree_induction. intros top.
  rewrite !candidates_eq, source_files_prune. f_equal.
  unfold prune. rewrite flat_map_nested.
  apply flat_map_agree. intros [name o|d children] Hin.
  - cbn [prune_entry]. destruct (endswith name (lit ".cs")); reflexivity.
  - cbn [prune_entry flat_map below]. rewrite app_nil_r.
    apply (IH _ _ Hin).
Qed.

(** X5. Files whose name does not end in the source extension play no part
    in the scan, wherever they lie and even when they cannot be opened: on
    the tree with all of them removed the scanner returns or raises the
    same and prints the same. *)
Theorem non_source_files_play_no_part (db : unicode_db) (root_dir : str)
    (w : world) :
  find_config_definitions db root_dir
    {| tree := prune (tree w); files := files w; stdout := stdout w |}
  = (fst (find_config_definitions db root_dir w),
     {| tree := prune (tree w); files := files w;
        stdout := stdout (snd (find_config_definitions db root_dir w)) |}).
Proof.
  rewrite !scan_as_function. cbn [tree files stdout].
  rewrite candidates_prune.
  destruct (scan_pure db (candidates root_dir (tree w)) [] (stdout w))
    as [r out].
  reflexivity.
Qed.

(** ** The order of the mapping *)

Section KeyOrder.

Variable db : unicode_db.

Lemma filter_fresh_remove (seen : list str) (k : str) (l : list str) :
  In k seen ->
  filter (fresh seen) (remove (list_eq_dec N.eq_dec) k l)
  = filter (fresh seen) l.
Proof.
  intros Hk. induction l as [|x l IH]; simpl; [reflexivity|].
  destruct (list_eq_dec N.eq_dec k x) as [<-|Hne].
  - rewrite IH. unfold fresh at 2.
    destruct (in_dec (list_eq_dec N.eq_dec) k seen); [reflexivity|tauto].
  - simpl. now rewrite IH.
Qed.

Lemma filter_fresh_snoc (seen : list str) (k : str) (l : list str) :
  filter (fresh (seen ++ [k])) l
  = filter (fresh seen) (remove (list_eq_dec N.eq_dec) k l).
Proof.
  induction l as [|x l IH]; simpl; [reflexivity|].
  destruct (list_eq_dec N.eq_dec k x) as [<-|Hne].
  - rewrite <- IH. unfold fresh at 1.
    destruct (in_dec (list_eq_dec N.eq_dec) k (seen ++ [k])) as [_|Hn];
      [reflexivity|].
    exfalso. apply Hn, in_or_app. right. now left.
  - simpl. rewrite <- IH.
    assert (E : fresh (seen ++ [k]) x = fresh seen x).
    { unfold fresh.
      destruct (in_dec (list_eq_dec N.eq_dec) x (seen ++ [k])) as [Hi|Hi];
        destruct (in_dec (list_eq_dec N.eq_dec) x seen) as [Hj|Hj];
        try reflexivity.
      - apply in_app_or in Hi as [Hi|[Hi|[]]]; [tauto|congruence].
      - exfalso. apply Hi, in_or_app. now left. }
    now rewrite E.
Qed.

Lemma recorded_keys (cands : list (str * on_open)) :
  forall defs,
    keys (recorded db cands defs)
    = keys defs
      ++ filter (fresh (keys defs))
           (first_occurrences (declared_sections db cands)).
Proof.
  induction cands as [|[path o] l IH]; intros defs.
  - simpl. now rewrite app_nil_r.
  - unfold recorded, declared_sections in *. cbn [fold_left flat_map fst snd].
    destruct o as [content|e|e]; [|apply IH|apply IH].
    destruct (declaration db path content) as [[k v]|]; [|apply IH].
    rewrite IH. cbn [record app first_occurrences filter].
    destruct (in_dec (list_eq_dec N.eq_dec) k (keys defs)) as [Hin|Hout].
    + rewrite keys_set_in by exact Hin. f_equal.
      unfold fresh at 2.
      destruct (in_dec (list_eq_dec N.eq_dec) k (keys defs)); [|tauto].
      now rewrite filter_fresh_remove.
    + rewrite keys_set_new by exact Hout. rewrite <- app_assoc. f_equal.
      unfold fresh at 2.
      destruct (in_dec (list_eq_dec N.eq_dec) k (keys defs)); [tauto|].
      cbn [app]. f_equal. apply filter_fresh_snoc.
Qed.

Lemma filter_fresh_nil (l : list str) : filter (fresh []) l = l.
Proof.
  induction l as [|x l IH]; simpl; [reflexivity|]. now rewrite IH.
Qed.

End KeyOrder.

(** X6. The keys of the mapping a scan returns are pairwise distinct and
    stand in the order in which the section names were first declared
    during the traversal: a later declaration of a name replaces the value
    and leaves the name where it is. *)
Theorem keys_in_order_of_first_declaration (db : unicode_db)
    (root_dir : str) (w : world) (defs : dict details) :
  result (find_config_definitions db root_dir w) = Returned defs ->
  NoDup (keys defs) /\
  keys defs
  = first_occurrences (declared_sections db (candidates root_dir (tree w))).
Proof.
  intros H. split; [eapply scan_keys_NoDup; eauto|].
  destruct (scan_returned _ _ _ H) as [out Hs].
  rewrite read_failures_are_skipped in Hs
    by (eapply scan_pure_returned_opens; eauto).
  inversion Hs as [[Hd Ho]].
  rewrite recorded_keys. cbn [keys map app]. apply filter_fresh_nil.
Qed.

Lemma keys_in_order_of_first_declaration_witness :
  NoDup (keys [(lit "Audio",
                {| class := lit "SoundOptions"; file := lit "./b/Sound.cs" |})]) /\
  keys [(lit "Audio",
         {| class := lit "SoundOptions"; file := lit "./b/Sound.cs" |})]
  = first_occurrences
      (declared_sections ascii_db (candidates ROOT_DIR (tree w_duplicate))).
Proof.
  apply (@keys_in_order_of_first_declaration ascii_db ROOT_DIR w_duplicate).
  vm_compute. reflexivity.
Defined.

(** ** The check against a growing documentation *)

Lemma Substring_trans (a b c : str) :
  Substring a b -> Substring b c -> Substring a c.
Proof.
  intros (p1 & q1 & ->) (p2 & q2 & ->).
  exists (p2 ++ p1), (q1 ++ q2). now rewrite <- !app_assoc.
Qed.

Lemma filter_length_le {A} (f g : A -> bool) (l : list A) :
  (forall x, f x = true -> g x = true) ->
  length (filter f l) <= length (filter g l).
Proof.
  intros H. induction l as [|x l IH]; simpl; [lia|].
  destruct (f x) eqn:F.
  - rewrite (H _ F). simpl. lia.
  - destruct (g x); simpl; lia.
Qed.

Lemma undocumented_in_more (doc more : str) (e : str * details) :
  Substring doc more ->
  negb (py_in (fst e) (Content more)) = true ->
  negb (py_in (fst e) (Content doc)) = true.
Proof.
  intros Hsub. rewrite !negb_true_iff. intros Hmore.
  destruct (py_in (fst e) (Content doc)) eqn:E; [|reflexivity].
  apply py_in_content in E.
  assert (M : py_in (fst e) (Content more) = true)
    by (apply py_in_content; eapply Substring_trans; eauto).
  congruence.
Qed.

(** X7. Text added to the documentation, before or after what is there,
    never adds a gap: every item reported against the longer text is
    reported against the shorter one, and every item reported against any
    text is reported when the documentation file is missing; the lists
    only get shorter. *)
Theorem more_documentation_never_adds_gaps (code_configs : dict details)
    (pre doc post : str) :
  (incl (missing_items_of code_configs (Content (pre ++ doc ++ post)))
     (missing_items_of code_configs (Content doc)) /\
   length (missing_items_of code_configs (Content (pre ++ doc ++ post)))
   <= length (missing_items_of code_configs (Content doc))) /\
  (incl (missing_items_of code_configs (Content doc))
     (missing_items_of code_configs EmptyList) /\
   length (missing_items_of code_configs (Content doc))
   <= length (missing_items_of code_configs EmptyList)).
Proof.
  assert (Hsub : Substring doc (pre ++ doc ++ post)) by now exists pre, post.
  rewrite !missing_items_filter, !length_map.
  repeat split.
  - intros item Hin. apply in_map_iff in Hin as (e & <- & He).
    apply filter_In in He as [He Hu]. apply in_map_iff. exists e.
    split; [reflexivity|]. apply filter_In.
    split; [exact He|]. eapply undocumented_in_more; eauto.
  - apply filter_length_le. intros e. now apply undocumented_in_more.
  - intros item Hin. apply in_map_iff in Hin as (e & <- & He).
    apply filter_In in He as [He Hu]. apply in_map_iff. exists e.
    split; [reflexivity|]. apply filter_In.
    split; [exact He|reflexivity].
  - apply filter_length_le. reflexivity.
Qed.

(** X8. A section name contained in a longer token that the documentation
    holds counts as documented: the definition under it puts no item on the
    list, whatever its own text says. *)
Theorem contained_name_counts_as_documented
    (before_it after_it : dict details) (section token doc : str)
    (d : details) :
  Substring section token ->
  Substring token doc ->
  missing_items_of (before_it ++ (section, d) :: after_it) (Content doc)
  = missing_items_of (before_it ++ after_it) (Content doc).
Proof.
  intros H1 H2. rewrite !missing_items_filter, !filter_app.
  cbn [filter fst].
  assert (E : py_in section (Content doc) = true)
    by (apply py_in_content; eapply Substring_trans; eauto).
  now rewrite E.
Qed.

Lemma contained_name_counts_as_documented_witness :
  missing_items_of
    ([] ++ (lit "Audio",
            {| class := lit "AudioOptions"; file := lit "./src/Audio.cs" |})
        :: [])
    (Content (lit "see AudioOutput below"))
  = missing_items_of ([] ++ []) (Content (lit "see AudioOutput below")).
Proof.
  apply (@contained_name_counts_as_documented [] [] (lit "Audio")
           (lit "AudioOutput") (lit "see AudioOutput below")).
  - exists [], (lit "Output"). vm_compute. reflexivity.
  - exists (lit "see "), (lit " below"). vm_compute. reflexivity.
Defined.

(** ** The paths in the mapping *)

Lemma startswith_app (s t p : str) :
  startswith s p = true -> startswith (s ++ t) p = true.
Proof.
  rewrite !startswith_iff. intros [r ->]. exists (r ++ t).
  now rewrite app_assoc.
Qed.

Lemma endswith_app (s t p : str) :
  endswith t p = true -> endswith (s ++ t) p = true.
Proof.
  unfold endswith. rewrite rev_app_distr. apply startswith_app.
Qed.

Lemma path_join_endswith (a b p : str) :
  endswith b p = true -> endswith (path_join a b) p = true.
Proof.
  intros H. unfold path_join.
  destruct (startswith b (lit "/")); [exact H|].
  destruct (_ || _); [now apply endswith_app|].
  rewrite app_assoc. now apply endswith_app.
Qed.

Lemma path_join_under_dot (top name : str) :
  under_dot top ->
  startswith name (lit "/") = false ->
  startswith (path_join top name) (lit "./") = true.
Proof.
  intros Htop Hname. unfold path_join. rewrite Hname.
  destruct Htop as [->|Htop].
  - reflexivity.
  - destruct (_ || _); now apply startswith_app.
Qed.

Lemma located_under_dot (top : str) (es : list entry) (path name : str)
    (o : on_open) :
  located top es path name o ->
  under_dot top -> names_ok es = true ->
  startswith path (lit "./") = true.
Proof.
  induction 1 as [top es name o Hin|top es d children path name o Hin Hl IH];
    intros Htop Hok; unfold names_ok in Hok; rewrite forallb_forall in Hok;
    specialize (Hok _ Hin); simpl in Hok.
  - apply path_join_under_dot; [exact Htop|].
    now apply negb_true_iff in Hok.
  - apply andb_true_iff in Hok as [Hd Hch].
    apply IH; [|exact Hch].
    right. apply path_join_under_dot; [exact Htop|].
    now apply negb_true_iff in Hd.
Qed.

(** X9. Every path in the mapping of a scan from the working directory
    ends in the source extension; and when no name in the tree starts with
    a slash, every such path starts with a dot and a slash, so it is
    relative to the working directory. *)
Theorem recorded_paths_are_source_paths (db : unicode_db) (w : world)
    (defs : dict details) (k : str) (v : details) :
  result (find_config_definitions db ROOT_DIR w) = Returned defs ->
  In (k, v) defs ->
  endswith (file v) (lit ".cs") = true /\
  (names_ok (tree w) = true -> startswith (file v) (lit "./") = true).
Proof.
  intros H Hin.
  destruct (scan_entry_origin _ _ _ H _ _ Hin) as (path & content & Hc & D).
  apply declaration_inv in D as (_ & _ & ->).
  apply candidate_is_located in Hc as (name & Hl & Hext).
  split.
  - clear -Hl Hext. induction Hl; [now apply path_join_endswith|auto].
  - intros Hok. eapply located_under_dot; eauto. now left.
Qed.

Lemma recorded_paths_are_source_paths_witness :
  endswith (lit "./src/Audio.cs") (lit ".cs") = true /\
  (names_ok (tree w_no_doc) = true ->
   startswith (lit "./src/Audio.cs") (lit "./") = true).
Proof.
  apply (@recorded_paths_are_source_paths ascii_db w_no_doc
           [(lit "Audio",
             {| class := lit "AudioOptions"; file := lit "./src/Audio.cs" |})]
           (lit "Audio")
           {| class := lit "AudioOptions"; file := lit "./src/Audio.cs" |}).
  - vm_compute. reflexivity.
  - simpl. left. reflexivity.
Defined.

(** ** The documentation file that cannot be read *)

(** X10. A documentation file that exists and cannot be opened, read or
    decoded is not recovered from: after a scan that returned, the run ends
    with that exception, no file is written, and the last line printed is
    the Reading line, so neither verdict appears. *)
Theorem unreadable_documentation_ends_the_run (db : unicode_db) (w : world)
    (code_configs : dict details) (e : exn) :
  result (find_config_definitions db ROOT_DIR w) = Returned code_configs ->
  dict_get (files w) DOC_FILE = Some (ReadFails e) \/
  dict_get (files w) DOC_FILE = Some (OpenFails e) ->
  result (main db w) = Raised e /\
  files (snd (main db w)) = files w /\
  exists earlier,
    stdout (snd (main db w))
    = earlier ++ [lit "Reading " ++ DOC_FILE ++ lit "..."].
Proof.
  intros Hscan Hdoc.
  assert (Hload : doc_loaded w = Raised e)
    by (unfold doc_loaded; destruct Hdoc as [-> | ->]; reflexivity).
  rewrite scan_result_tree in Hscan.
  unfold main. rewrite bind_print, bind_run, scan_as_function.
  cbn [set_stdout tree files stdout]. rewrite scan_pure_out, Hscan.
  rewrite bind_print, bind_run, get_documented_sections_spec.
  rewrite !doc_loaded_set_stdout, Hload.
  unfold result. cbn [fst snd set_stdout files stdout].
  repeat split. eexists. reflexivity.
Qed.

Lemma unreadable_documentation_ends_the_run_witness :
  result (main ascii_db
            {| tree := audio_tree;
               files := [(DOC_FILE,
                          ReadFails (Exception (lit "invalid start byte")))];
               stdout := [] |})
  = Raised (Exception (lit "invalid start byte")) /\
  files (snd (main ascii_db
                {| tree := audio_tree;
                   files := [(DOC_FILE,
                              ReadFails (Exception (lit "invalid start byte")))];
                   stdout := [] |}))
  = [(DOC_FILE, ReadFails (Exception (lit "invalid start byte")))] /\
  exists earlier,
    stdout (snd (main ascii_db
                   {| tree := audio_tree;
                      files := [(DOC_FILE,
                                 ReadFails
                                   (Exception (lit "invalid start byte")))];
                      stdout := [] |}))
    = earlier ++ [lit "Reading " ++ DOC_FILE ++ lit "..."].
Proof.
  apply (@unreadable_documentation_ends_the_run ascii_db
           {| tree := audio_tree;
              files := [(DOC_FILE,
                         ReadFails (Exception (lit "invalid start byte")))];
              stdout := [] |}
           [(lit "Audio",
             {| class := lit "AudioOptions"; file := lit "./src/Audio.cs" |})]
           (Exception (lit "invalid start byte"))).
  - vm_compute. reflexivity.
  - left. vm_compute. reflexivity.
Defined.

(** ** The console *)

Lemma report_prints (items : list str) (w : world) :
  stdout (snd (report items w))
  = stdout w
    ++ match items with
       | [] => [NL ++ lit "All configuration sections appear to be documented."]
       | _ :: _ => [NL ++ lit "Missing Configuration Documentation Found:";
                    join NL items]
       end.
Proof.
  destruct items as [|item items]; [reflexivity|].
  unfold report, bind, print, open_w.
  cbn [tree files stdout]. unfold f_write at 1 2.
  cbn [tree files stdout].
  rewrite !dict_get_set_same, !dict_set_twice.
  rewrite write_items with (acc :=
    ([] ++ lit "### Missing Configuration Sections in " ++ DOC_FILE ++ NL ++ NL)
    ++ lit "The following configuration sections were found in the code but are missing from documentation:" ++ NL ++ NL).
  - cbn [snd stdout]. now rewrite <- app_assoc.
  - cbn [files]. apply dict_get_set_same.
Qed.

(** X11. What a run prints when every source file opens and the
    documentation loads: the Scanning line, one Skipping line per
    unreadable source file, the Reading line naming the documentation
    file, and then either the success line, when nothing is missing, or the
    Missing headline followed by the items joined by newlines. *)
Theorem console_of_a_run (db : unicode_db) (w : world) (d : doc_content) :
  forallb opens (candidates ROOT_DIR (tree w)) = true ->
  doc_loaded w = Returned d ->
  stdout (snd (main db w))
  = stdout w
    ++ [lit "Scanning codebase for configuration options..."]
    ++ diagnostics (candidates ROOT_DIR (tree w))
    ++ [lit "Reading " ++ DOC_FILE ++ lit "..."]
    ++ match missing_items_of
               (recorded db (candidates ROOT_DIR (tree w)) []) d with
       | [] => [NL ++ lit "All configuration sections appear to be documented."]
       | _ :: _ =>
           [NL ++ lit "Missing Configuration Documentation Found:";
            join NL (missing_items_of
                       (recorded db (candidates ROOT_DIR (tree w)) []) d)]
       end.
Proof.
  intros Hopen Hload.
  unfold main. rewrite bind_print, bind_run, scan_as_function.
  cbn [set_stdout tree files stdout].
  rewrite read_failures_are_skipped by (apply opens_all, Hopen).
  rewrite bind_print, bind_run, get_documented_sections_spec.
  rewrite !doc_loaded_set_stdout, Hload. rewrite bind_run.
  match goal with
  | |- context [report ?i ?w0] =>
      pose proof (report_prints i w0) as Hp;
      destruct (report i w0) as [[[]|e0] w1]
  end; unfold ret; cbn [snd set_stdout stdout] in *; rewrite Hp;
    now rewrite <- !app_assoc.
Qed.

Lemma console_of_a_run_witness :
  stdout (snd (main ascii_db w_undecodable))
  = stdout w_undecodable
    ++ [lit "Scanning codebase for configuration options..."]
    ++ diagnostics (candidates ROOT_DIR (tree w_undecodable))
    ++ [lit "Reading " ++ DOC_FILE ++ lit "..."]
    ++ match missing_items_of
               (recorded ascii_db (candidates ROOT_DIR (tree w_undecodable)) [])
               EmptyList with
       | [] => [NL ++ lit "All configuration sections appear to be documented."]
       | _ :: _ =>
           [NL ++ lit "Missing Configuration Documentation Found:";
            join NL (missing_items_of
                       (recorded ascii_db
                          (candidates ROOT_DIR (tree w_undecodable)) [])
                       EmptyList)]
       end.
Proof.
  apply (@console_of_a_run ascii_db w_undecodable EmptyList).
  - vm_compute. reflexivity.
  - vm_compute. reflexivity.
Defined.

(** ** The two patterns, spelled out *)

Section Patterns.

Variable db : unicode_db.

Lemma class_match_iff (rest g : str) :
  match_at (CLASS_PATTERN db) rest g <-> class_declaration db rest g.
Proof.
  unfold match_at, class_declaration, spaces.
  cbn [lang CLASS_PATTERN before group1 after]. split.
  - intros (w1 & w3 & post & -> & Hb & Hg & ->).
    destruct Hb as (wa & wb & -> & -> & wc & wd & -> & Hc & we & wf & ->
                    & He & wg & wh & -> & -> & Hh).
    destruct Hg as (stem & o & -> & [Hne Hw] & ->).
    exists wc, we, wh, stem, post. repeat split; auto.
    + rewrite <- !app_assoc. reflexivity.
    + apply Hc.
    + apply Hc.
    + destruct He as [->|(x & y & -> & -> & Hy)]; [now left|].
      right. exists y. auto.
    + apply Hh.
    + apply Hh.
  - intros (ws1 & mid & ws3 & stem & post & -> & H1 & Hm & H3 & -> & Hne & Hw).
    exists (lit "public" ++ ws1 ++ mid ++ lit "class" ++ ws3), [], post.
    repeat split.
    + rewrite <- !app_assoc. reflexivity.
    + exists (lit "public"), (ws1 ++ mid ++ lit "class" ++ ws3).
      repeat split.
      exists ws1, (mid ++ lit "class" ++ ws3). repeat split; try apply H1.
      exists mid, (lit "class" ++ ws3). repeat split.
      * destruct Hm as [->|(ws2 & -> & H2)]; [now left|].
        right. exists (lit "sealed"), ws2. auto.
      * exists (lit "class"), ws3. repeat split; apply H3.
    + exists stem, (lit "Options"). auto.
Qed.

Lemma section_match_iff (rest g : str) :
  match_at (SECTION_PATTERN db) rest g <-> section_constant db rest g.
Proof.
  unfold match_at, section_constant, spaces.
  cbn [lang SECTION_PATTERN before group1 after]. split.
  - intros (w1 & w3 & post & -> & Hb & [Hne Hq] & ->).
    destruct Hb as (a1 & b1 & -> & -> & a2 & b2 & -> & H1 & a3 & b3 & -> & ->
                    & a4 & b4 & -> & H2 & a5 & b5 & -> & -> & a6 & b6 & ->
                    & H3 & a7 & b7 & -> & -> & a8 & b8 & -> & H4
                    & a9 & b9 & -> & -> & a10 & b10 & -> & H5 & ->).
    exists a2, a4, a6, a8, a10, post. repeat split; auto;
      try apply H1; try apply H2; try apply H3.
    rewrite <- !app_assoc. reflexivity.
  - intros (ws1 & ws2 & ws3 & ws4 & ws5 & post & -> & H1 & H2 & H3 & H4 & H5
            & Hne & Hq).
    exists (lit "public" ++ ws1 ++ lit "const" ++ ws2 ++ lit "string" ++ ws3
              ++ lit "SectionName" ++ ws4 ++ lit "=" ++ ws5 ++ QUOTE),
      QUOTE, post.
    repeat split; auto.
    + rewrite <- !app_assoc. reflexivity.
    + do 2 eexists. split; [reflexivity|]. split; [reflexivity|].
      do 2 eexists. split; [reflexivity|]. split; [exact H1|].
      do 2 eexists. split; [reflexivity|]. split; [reflexivity|].
      do 2 eexists. split; [reflexivity|]. split; [exact H2|].
      do 2 eexists. split; [reflexivity|]. split; [reflexivity|].
      do 2 eexists. split; [reflexivity|]. split; [exact H3|].
      do 2 eexists. split; [reflexivity|]. split; [reflexivity|].
      do 2 eexists. split; [reflexivity|]. split; [exact H4|].
      do 2 eexists. split; [reflexivity|]. split; [reflexivity|].
      do 2 eexists. split; [reflexivity|]. split; [exact H5|].
      reflexivity.
Qed.

End Patterns.

(** A run of characters of a class is delimited by the first character
    outside the class. *)
Lemma run_unique (c : N -> bool) (w w' : str) :
  forall a a' x x',
    forallb c w = true -> forallb c w' = true ->
    c a = false -> c a' = false ->
    w ++ a :: x = w' ++ a' :: x' ->
    w = w' /\ a :: x = a' :: x'.
Proof.
  revert w'. induction w as [|b w IH]; intros [|b' w'] a a' x x' Hw Hw' Ha Ha' E;
    simpl in *.
  - auto.
  - inversion E; subst. apply andb_true_iff in Hw' as [Hb _]. congruence.
  - inversion E; subst. apply andb_true_iff in Hw as [Hb _]. congruence.
  - inversion E; subst.
    apply andb_true_iff in Hw as [_ Hw]. apply andb_true_iff in Hw' as [_ Hw'].
    destruct (IH _ _ _ _ _ Hw Hw' Ha Ha' H1) as [-> E']. auto.
Qed.

(** A run followed by a literal that starts outside the class. *)
Lemma run_then_literal (c : N -> bool) (w w' l x x' : str) (a : N) (l0 : str) :
  l = a :: l0 -> c a = false ->
  forallb c w = true -> forallb c w' = true ->
  w ++ l ++ x = w' ++ l ++ x' ->
  w = w' /\ x = x'.
Proof.
  intros -> Ha Hw Hw' E. simpl in E.
  destruct (run_unique c w w' a a (l0 ++ x) (l0 ++ x') Hw Hw' Ha Ha E)
    as [-> E'].
  inversion E' as [E'']. apply app_inv_head in E''. auto.
Qed.

Section PatternTheorems.

Variable db : unicode_db.

(** At a given place the section constant has one literal only. *)
Lemma section_literal_unique (rest g g' : str) :
  section_constant db rest g -> section_constant db rest g' -> g = g'.
Proof.
  intros (a1 & a2 & a3 & a4 & a5 & post & -> & [_ H1] & [_ H2] & [_ H3] & H4
          & H5 & _ & Hq)
         (b1 & b2 & b3 & b4 & b5 & post' & E & [_ K1] & [_ K2] & [_ K3] & K4
          & K5 & _ & Kq).
  apply app_inv_head in E.
  destruct (@run_then_literal (is_space db) a1 b1 (lit "const") _ _ _ _
              eq_refl eq_refl H1 K1 E) as [_ E1]. clear E.
  destruct (@run_then_literal (is_space db) a2 b2 (lit "string") _ _ _ _
              eq_refl eq_refl H2 K2 E1) as [_ E2]. clear E1.
  destruct (@run_then_literal (is_space db) a3 b3 (lit "SectionName") _ _ _ _
              eq_refl eq_refl H3 K3 E2) as [_ E3]. clear E2.
  destruct (@run_then_literal (is_space db) a4 b4 (lit "=") _ _ _ _
              eq_refl eq_refl H4 K4 E3) as [_ E4]. clear E3.
  destruct (@run_then_literal (is_space db) a5 b5 QUOTE _ _ _ _
              eq_refl eq_refl H5 K5 E4) as [_ E5]. clear E4.
  destruct (@run_then_literal not_quote g g' QUOTE _ _ _ _
              eq_refl eq_refl Hq Kq E5) as [E6 _].
  exact E6.
Qed.

End PatternTheorems.

(** X12. The search for the type declaration succeeds exactly on the texts
    that hold, somewhere, the word public, white space, optionally the word
    sealed and white space, the word class, white space, and a name made of
    one or more word characters followed by Options.  The name returned is
    that of such a declaration at the first place where one starts; when
    the search fails, the text holds none. *)
Theorem class_pattern_finds_the_first_declaration (db : unicode_db)
    (content : str) :
  match re_search (CLASS_PATTERN db) content with
  | Some g =>
      exists pre rest,
        content = pre ++ rest /\ class_declaration db rest g /\
        forall pre' rest' g',
          content = pre' ++ rest' -> length pre' < length pre ->
          ~ class_declaration db rest' g'
  | None =>
      forall pre rest g, content = pre ++ rest -> ~ class_declaration db rest g
  end.
Proof.
  destruct (re_search (CLASS_PATTERN db) content) as [g|] eqn:E.
  - destruct (re_search_sound _ _ E) as (pre & rest & -> & Hm & Hmin).
    exists pre, rest. repeat split.
    + now apply class_match_iff, match_here_sound.
    + intros pre' rest' g' Hs Hlen D. apply class_match_iff in D.
      eapply Hmin; eauto.
  - intros pre rest g Hs D. apply class_match_iff in D.
    eapply re_search_none; eauto.
Qed.

(** X13. The search for the section constant succeeds exactly on the texts
    that hold, somewhere, the words public, const, string and SectionName
    separated by white space, an equals sign with optional white space on
    either side, and a non-empty literal between double quotes.  The string
    returned is the literal of the first such constant, everything between
    its quotes and nothing else; when the search fails, the text holds
    none. *)
Theorem section_pattern_finds_the_first_literal (db : unicode_db)
    (content : str) :
  match re_search (SECTION_PATTERN db) content with
  | Some g =>
      exists pre rest,
        content = pre ++ rest /\ section_constant db rest g /\
        (forall g', section_constant db rest g' -> g' = g) /\
        forall pre' rest' g',
          content = pre' ++ rest' -> length pre' < length pre ->
          ~ section_constant db rest' g'
  | None =>
      forall pre rest g, content = pre ++ rest -> ~ section_constant db rest g
  end.
Proof.
  destruct (re_search (SECTION_PATTERN db) content) as [g|] eqn:E.
  - destruct (re_search_sound _ _ E) as (pre & rest & -> & Hm & Hmin).
    assert (D : section_constant db rest g)
      by now apply section_match_iff, match_here_sound.
    exists pre, rest. repeat split.
    + exact D.
    + intros g' D'. eapply section_literal_unique; eauto.
    + intros pre' rest' g' Hs Hlen D'. apply section_match_iff in D'.
      eapply Hmin; eauto.
  - intros pre rest g Hs D. apply section_match_iff in D.
    eapply re_search_none; eauto.
Qed.

(** ** Greedy repetition *)

(** What [rep] hands to the rest of the pattern is the longest run that
    the rest accepts. *)
Lemma rep_greedy {R} (c : N -> bool) (s : str) (k : str -> option R) (x : R) :
  rep c s k = Some x ->
  exists w s',
    s = w ++ s' /\ forallb c w = true /\ k s' = Some x /\
    forall w2 s2,
      s = w2 ++ s2 -> forallb c w2 = true -> length w < length w2 ->
      k s2 = None.
Proof.
  induction s as [|a s IH]; simpl; intros H.
  - exists [], []. repeat split; auto.
    intros w2 s2 E _ Hlen. symmetry in E. apply app_eq_nil in E as [-> _].
    simpl in Hlen. lia.
  - assert (Hstop : c a = false \/ rep c s k = None ->
                    k (a :: s) = Some x ->
                    exists w s',
                      a :: s = w ++ s' /\ forallb c w = true /\
                      k s' = Some x /\
                      forall w2 s2,
                        a :: s = w2 ++ s2 -> forallb c w2 = true ->
                        length w < length w2 -> k s2 = None).
    { intros Hwhy Hk. exists [], (a :: s). repeat split; auto.
      intros [|b w2] s2 E Hw2 Hlen; simpl in *; [lia|].
      inversion E; subst. apply andb_true_iff in Hw2 as [Hb Hw2].
      destruct Hwhy as [Hc|Hnone]; [congruence|].
      destruct (k s2) as [y|] eqn:Ek; [|reflexivity].
      destruct (rep_complete c w2 s2 k Hw2 Ek) as [z Hz]. congruence. }
    destruct (c a) eqn:Ca; [|now apply Hstop; auto].
    destruct (rep c s k) as [r|] eqn:E; [|now apply Hstop; auto].
    inversion H; subst r.
    destruct (IH eq_refl) as (w & s' & -> & Hw & Hk & Hmax).
    exists (a :: w), s'. simpl. rewrite Ca, Hw. repeat split; auto.
    intros [|b w2] s2 E2 Hw2 Hlen; simpl in *; [lia|].
    inversion E2; subst. apply andb_true_iff in Hw2 as [_ Hw2].
    eapply Hmax; eauto. lia.
Qed.

Lemma firstn_all_but (x y : str) :
  firstn (length (x ++ y) - length y) (x ++ y) = x.
Proof.
  rewrite length_app, Nat.add_sub, firstn_app, Nat.sub_diag, firstn_all.
  simpl. apply app_nil_r.
Qed.

Lemma ascii_classes_disjoint (c : N) :
  ascii_space c = true -> ascii_alnum c || N.eqb c 95 = false.
Proof.
  unfold ascii_space, ascii_alnum, between. intros H.
  rewrite !orb_true_iff, !andb_true_iff, !N.leb_le, N.eqb_eq in H.
  apply not_true_is_false. intros G.
  rewrite !orb_true_iff, !andb_true_iff, !N.leb_le, N.eqb_eq in G.
  lia.
Qed.

(** White space is no word character, once the database agrees beyond
    ASCII. *)
Lemma space_is_no_word (db : unicode_db) :
  (forall c, uni_space db c = true -> uni_alnum db c = false) ->
  forall c, is_word db c = true -> is_space db c = false.
Proof.
  intros Hdb c Hw. unfold is_word, is_space in *.
  destruct (N.ltb c 128).
  - destruct (ascii_space c) eqn:E; [|reflexivity].
    apply ascii_classes_disjoint in E. congruence.
  - destruct (uni_space db c) eqn:E; [|reflexivity].
    apply Hdb in E. congruence.
Qed.

Lemma class_before_inv (db : unicode_db) (w1 : str) :
  lang (before (CLASS_PATTERN db)) w1 ->
  exists ws1 mid ws3,
    w1 = lit "public" ++ ws1 ++ mid ++ lit "class" ++ ws3 /\
    forallb (is_space db) ws1 = true /\
    (mid = [] \/
     exists ws2, mid = lit "sealed" ++ ws2 /\ forallb (is_space db) ws2 = true) /\
    forallb (is_space db) ws3 = true.
Proof.
  cbn [lang CLASS_PATTERN before].
  intros (wa & wb & -> & -> & wc & wd & -> & Hc & we & wf & -> & He
          & wg & wh & -> & -> & Hh).
  exists wc, we, wh. repeat split.
  - apply Hc.
  - destruct He as [->|(x & y & -> & -> & Hy)]; [now left|].
    right. exists y. split; [reflexivity|apply Hy].
  - apply Hh.
Qed.

(** Where the name of a type declaration starts is settled by the text:
    two readings of the same text as public, white space, optional sealed,
    class, white space, and then something that starts with a character
    that is no white space, agree on that something. *)
Lemma class_name_start_unique (db : unicode_db)
    (ws1 mid ws3 ws1' mid' ws3' x x' : str) (a a' : N) (xs xs' : str) :
  lit "public" ++ ws1 ++ mid ++ lit "class" ++ ws3 ++ x
  = lit "public" ++ ws1' ++ mid' ++ lit "class" ++ ws3' ++ x' ->
  forallb (is_space db) ws1 = true -> forallb (is_space db) ws1' = true ->
  (mid = [] \/
   exists ws2, mid = lit "sealed" ++ ws2 /\ forallb (is_space db) ws2 = true) ->
  (mid' = [] \/
   exists ws2, mid' = lit "sealed" ++ ws2 /\ forallb (is_space db) ws2 = true) ->
  forallb (is_space db) ws3 = true -> forallb (is_space db) ws3' = true ->
  x = a :: xs -> is_space db a = false ->
  x' = a' :: xs' -> is_space db a' = false ->
  x = x'.
Proof.
  intros E H1 H1' Hm Hm' H3 H3' -> Ha -> Ha'.
  apply app_inv_head in E.
  assert (E3 : ws3 ++ a :: xs = ws3' ++ a' :: xs').
  { destruct Hm as [->|(ws2 & -> & H2)]; destruct Hm' as [->|(ws2' & -> & H2')].
    - cbn [app] in E.
      now destruct (@run_then_literal (is_space db) ws1 ws1' (lit "class")
                      _ _ _ _ eq_refl eq_refl H1 H1' E).
    - exfalso. cbn [app] in E. rewrite <- app_assoc in E.
      change (lit "class") with (99%N :: lit "lass") in E at 1.
      change (lit "sealed") with (115%N :: lit "ealed") in E.
      cbn [app] in E.
      destruct (@run_unique (is_space db) ws1 ws1' 99%N 115%N _ _ H1 H1'
                  eq_refl eq_refl E) as [_ E'].
      discriminate.
    - exfalso. cbn [app] in E. rewrite <- app_assoc in E.
      change (lit "class") with (99%N :: lit "lass") in E at 2.
      change (lit "sealed") with (115%N :: lit "ealed") in E.
      cbn [app] in E.
      destruct (@run_unique (is_space db) ws1 ws1' 115%N 99%N _ _ H1 H1'
                  eq_refl eq_refl E) as [_ E'].
      discriminate.
    - rewrite <- !app_assoc in E.
      destruct (@run_then_literal (is_space db) ws1 ws1' (lit "sealed")
                  _ _ _ _ eq_refl eq_refl H1 H1' E) as [_ E2].
      now destruct (@run_then_literal (is_space db) ws2 ws2' (lit "class")
                      _ _ _ _ eq_refl eq_refl H2 H2' E2). }
  now destruct (@run_unique (is_space db) ws3 ws3' a a' xs xs' H3 H3' Ha Ha' E3).
Qed.

Lemma shorter_is_prefix (x y u v : str) :
  x ++ u = y ++ v -> length x <= length y -> exists more, y = x ++ more.
Proof.
  revert y. induction x as [|a x IH]; intros y E Hlen.
  - now exists y.
  - destruct y as [|b y]; simpl in Hlen; [lia|].
    simpl in E. inversion E; subst b.
    destruct (IH y H1 ltac:(lia)) as [more ->]. now exists more.
Qed.

(** X14. When no character is both white space and a word character, the
    name the type-declaration search returns is the longest one the text
    offers at the first place where a declaration starts: it is the name
    of a declaration there, no declaration starts earlier, and the name of
    every declaration starting there is a prefix of it.  So the name may
    stop inside an identifier, and of several endings in Options the last
    is taken. *)
Theorem class_name_is_the_longest (db : unicode_db) (content g : str) :
  (forall c, uni_space db c = true -> uni_alnum db c = false) ->
  re_search (CLASS_PATTERN db) content = Some g ->
  exists pre rest,
    content = pre ++ rest /\
    class_declaration db rest g /\
    (forall pre' rest' g',
        content = pre' ++ rest' -> length pre' < length pre ->
        ~ class_declaration db rest' g') /\
    (forall g',
        class_declaration db rest g' -> exists more, g = g' ++ more).
Proof.
  intros Hdb H.
  destruct (re_search_sound _ _ H) as (pre & rest & -> & Hm & Hmin).
  exists pre, rest. split; [reflexivity|].
  split; [now apply class_match_iff, match_here_sound|].
  split.
  { intros pre' rest' g' Hs Hlen D. apply class_match_iff in D.
    eapply Hmin; eauto. }
  clear H Hmin. unfold match_here in Hm.
  destruct (rmatch_sound _ _ _ Hm) as (w1 & s1 & -> & Hw1 & H1). clear Hm.
  cbn [CLASS_PATTERN group1 after rmatch] in H1.
  destruct s1 as [|a s']; [discriminate|].
  destruct (is_word db a) eqn:Ca; [|discriminate].
  destruct (rep_greedy _ _ _ H1) as (w & t & -> & Hw & Hk & Hmax).
  destruct (strip_prefix (lit "Options") t) as [t'|] eqn:Et; [|discriminate].
  assert (Hg : Some (firstn (length (a :: w ++ t) - length t') (a :: w ++ t))
               = Some g) by exact Hk.
  clear Hk. apply (f_equal (fun o => match o with Some x => x | None => g end))
    in Hg.
  apply strip_prefix_inv in Et. subst t.
  assert (Eg : g = (a :: w) ++ lit "Options").
  { rewrite <- Hg, (app_assoc w).
    change (a :: (w ++ lit "Options") ++ t')
      with (((a :: w) ++ lit "Options") ++ t').
    apply firstn_all_but. }
  clear Hg H1.
  apply class_before_inv in Hw1
    as (ws1 & mid & ws3 & -> & Hs1 & Hmid & Hs3).
  intros g' (ws1' & mid' & ws3' & stem' & post' & E & [_ Hs1'] & Hmid'
             & [_ Hs3'] & -> & Hne & Hstem).
  assert (Hmid'' : mid' = [] \/
            exists ws2, mid' = lit "sealed" ++ ws2 /\
                        forallb (is_space db) ws2 = true).
  { destruct Hmid' as [->|(ws2 & -> & _ & H2)]; [now left|].
    right. now exists ws2. }
  destruct stem' as [|b w2]; [congruence|].
  cbn [forallb] in Hstem. apply andb_true_iff in Hstem as [Cb Hw2].
  rewrite <- !app_assoc in E.
  assert (Ex : a :: w ++ lit "Options" ++ t'
               = (b :: w2) ++ lit "Options" ++ post').
  { exact (@class_name_start_unique db ws1 mid ws3 ws1' mid' ws3'
             (a :: w ++ lit "Options" ++ t')
             ((b :: w2) ++ lit "Options" ++ post')
             a b (w ++ lit "Options" ++ t') (w2 ++ lit "Options" ++ post')
             E Hs1 Hs1' Hmid Hmid'' Hs3 Hs3'
             eq_refl (@space_is_no_word db Hdb a Ca)
             eq_refl (@space_is_no_word db Hdb b Cb)). }
  assert (Ex' : w ++ lit "Options" ++ t' = w2 ++ lit "Options" ++ post')
    by exact (f_equal (@tl N) Ex).
  assert (Hab : a = b) by exact (f_equal (hd a) Ex).
  clear Ex. subst b.
  assert (Hle : length w2 <= length w).
  { destruct (Nat.le_gt_cases (length w2) (length w)) as [Hle|Hgt];
      [exact Hle|].
    exfalso.
    assert (Hnone := Hmax w2 (lit "Options" ++ post') Ex' Hw2 Hgt).
    rewrite strip_prefix_app in Hnone. discriminate. }
  rewrite Eg.
  apply shorter_is_prefix
    with (u := post') (v := t').
  - rewrite <- !app_assoc. cbn [app]. f_equal. symmetry. exact Ex'.
  - rewrite !length_app. cbn [length]. lia.
Qed.

Lemma class_name_is_the_longest_witness :
  exists pre rest,
    lit "public class FooOptionsBarOptions FooOptions" = pre ++ rest /\
    class_declaration ascii_db rest (lit "FooOptionsBarOptions") /\
    (forall pre' rest' g',
        lit "public class FooOptionsBarOptions FooOptions" = pre' ++ rest' ->
        length pre' < length pre ->
        ~ class_declaration ascii_db rest' g') /\
    (forall g',
        class_declaration ascii_db rest g' ->
        exists more, lit "FooOptionsBarOptions" = g' ++ more).
Proof.
  apply (@class_name_is_the_longest ascii_db
           (lit "public class FooOptionsBarOptions FooOptions")
           (lit "FooOptionsBarOptions")).
  - intros c Hc. simpl in Hc. discriminate.
  - vm_compute. reflexivity.
Defined.

(** ** The run, end to end *)

Lemma main_returned (db : unicode_db) (w : world) (items : list str)
    (doc : str) :
  result (main db w) = Returned items ->
  dict_get (files w) DOC_FILE = Some (Text doc) ->
  exists code_configs,
    result (find_config_definitions db ROOT_DIR w) = Returned code_configs /\
    items = missing_items_of code_configs (Content doc).
Proof.
  intros Hmain Hdoc. destruct (main_spec db w) as [_ H].
  destruct (result (find_config_definitions db ROOT_DIR w))
    as [code_configs|e]; [|destruct H; congruence].
  unfold doc_loaded in H. rewrite Hdoc in H. cbv zeta in H.
  destruct H as [H _]. exists code_configs. split; [reflexivity|congruence].
Qed.

(** X15. A run that returns against a documentation text reports the
    undocumented sections and nothing else: every item on its list names a
    section that a readable source file declares, next to a type
    declaration, and that is not a substring of the documentation; and
    every section so declared that is not a substring of the documentation
    has an item on the list. *)
Theorem run_reports_the_undocumented_sections (db : unicode_db) (w : world)
    (items : list str) (doc : str) :
  result (main db w) = Returned items ->
  dict_get (files w) DOC_FILE = Some (Text doc) ->
  (forall item,
      In item items ->
      exists section d content,
        item = format_item section d /\
        In (file d, Text content) (candidates ROOT_DIR (tree w)) /\
        re_search (CLASS_PATTERN db) content = Some (class d) /\
        re_search (SECTION_PATTERN db) content = Some section /\
        ~ Substring section doc) /\
  (forall path content cls section,
      In (path, Text content) (candidates ROOT_DIR (tree w)) ->
      re_search (CLASS_PATTERN db) content = Some cls ->
      re_search (SECTION_PATTERN db) content = Some section ->
      ~ Substring section doc ->
      exists d, In (format_item section d) items).
Proof.
  intros Hmain Hdoc.
  destruct (main_returned db w Hmain Hdoc) as (cc & Hscan & ->).
  rewrite missing_items_filter. split.
  - intros item Hin. apply in_map_iff in Hin as ([section d] & <- & He).
    apply filter_In in He as [He Hu]. cbn [fst snd] in *.
    destruct (scan_entry_origin _ _ _ Hscan _ _ He) as (p & c & Hp & D).
    apply declaration_inv in D as (C & S & <-).
    exists section, d, c. repeat split; auto.
    intros Hsub. apply py_in_content in Hsub.
    rewrite Hsub in Hu. discriminate.
  - intros path content cls section Hin C S Hnot.
    destruct (scan_returned _ _ _ Hscan) as [out Hs].
    apply in_split in Hin as (l1 & l2 & Hc). rewrite Hc in Hs.
    pose proof (@declaration_intro db path _ _ _ C S) as D.
    assert (Hk : In section (keys cc))
      by (eapply scan_pure_declared_key; eauto).
    unfold keys in Hk. apply in_map_iff in Hk as ([k d] & Ek & Hd).
    simpl in Ek. subst k. exists d.
    apply in_map_iff. exists (section, d). split; [reflexivity|].
    apply filter_In. split; [exact Hd|]. cbn [fst].
    apply negb_true_iff.
    destruct (py_in section (Content doc)) eqn:E; [|reflexivity].
    apply py_in_content in E. contradiction.
Qed.

Lemma run_reports_the_undocumented_sections_witness :
  (forall item,
      In item [lit "**Audio** (Class: `AudioOptions` in `./src/Audio.cs`)"] ->
      exists section d content,
        item = format_item section d /\
        In (file d, Text content) (candidates ROOT_DIR (tree w_audi)) /\
        re_search (CLASS_PATTERN ascii_db) content = Some (class d) /\
        re_search (SECTION_PATTERN ascii_db) content = Some section /\
        ~ Substring section (lit "Audi")) /\
  (forall path content cls section,
      In (path, Text content) (candidates ROOT_DIR (tree w_audi)) ->
      re_search (CLASS_PATTERN ascii_db) content = Some cls ->
      re_search (SECTION_PATTERN ascii_db) content = Some section ->
      ~ Substring section (lit "Audi") ->
      exists d,
        In (format_item section d)
          [lit "**Audio** (Class: `AudioOptions` in `./src/Audio.cs`)"]).
Proof.
  apply (@run_reports_the_undocumented_sections ascii_db w_audi
           [lit "**Audio** (Class: `AudioOptions` in `./src/Audio.cs`)"]
           (lit "Audi")).
  - vm_compute. reflexivity.
  - vm_compute. reflexivity.
Defined.
